(** * Flow control of the ACME cross assembler (src/flow.c)

    A shallow embedding of the handlers of "!do", "!for", "!if", "!ifdef",
    "!ifndef" and "!source" and of their helpers, and the properties of the
    specification that concern them.

    The handlers work on global variables (the active input, the last byte
    read, the global dynamic buffer, the symbols, the inclusion budget) and
    call into the rest of the assembler (input.c, alu.c, symbol.c, tree.c,
    global.c).  The globals are a record that is threaded through a small
    monad; the functions of the other modules are the fields of the class
    [Externals]. *)

From Stdlib Require Import ZArith Lia.
From stdpp Require Import base option list gmap strings.

Local Open Scope Z_scope.

(** ** Data *)

(** Pointers to [struct input] and to [struct symbol] are addresses into the
    two memories of [globals]; a [FILE *] is a handle. *)
Abbreviation addr := nat (only parsing).
Abbreviation FILE := nat (only parsing).

(** A [char *]: [None] is [NULL], [Some l] points to the bytes [l]. *)
Abbreviation char_ptr := (option (list Z)) (only parsing).

(** [union { FILE *fd; char *ram_ptr; } src] of [struct input]. *)
Inductive source : Type :=
| src_fd (fd : FILE)
| src_ram (ram_ptr : char_ptr).

(** [struct input] (input.h), with the members flow.c reads or writes. *)
Record input : Type := mk_input {
  line_number : Z;
  source_is_ram : bool;
  src : source
}.

(** [struct loop_condition]. *)
Record loop_condition : Type := mk_condition {
  line : Z;          (* original line number *)
  invert : bool;     (* FALSE for WHILE, TRUE for UNTIL *)
  body : char_ptr    (* pointer to actual expression *)
}.

(** [struct result] (alu.h): flags and integer value. *)
Record result : Type := mk_result {
  flags : Z;
  intval : Z
}.

(** [struct symbol] (symbol.h), with the members flow.c reads or writes. *)
Record symbol : Type := mk_symbol {
  sym_result : result;
  usage : Z
}.

(** [enum eos] (global.h): what a pseudo opcode handler tells the statement
    dispatcher to do with the rest of the statement. *)
Inductive eos : Type :=
| SKIP_REMAINDER     (* skip the remainder of the statement *)
| ENSURE_EOS         (* make sure the statement has ended, complain if not *)
| PARSE_REMAINDER    (* parse what is left of the statement *)
| AT_EOS_ANYWAY.     (* the handler knows the statement has ended *)

(** The texts handed to the diagnostics functions.  The four [exception_]
    strings are declared in global.h, the others are literals of flow.c. *)
Inductive message : Type :=
| exception_syntax
| exception_no_left_brace
| exception_no_right_brace
| exception_cannot_open_input_file
| found_new_for_syntax       (* Found new "!for" syntax. *)
| found_old_for_syntax       (* Found old "!for" syntax. *)
| loop_count_is_negative     (* Loop count is negative. *)
| found_eob_instead_of_eof   (* Found '}' instead of end-of-file. *)
| too_deeply_nested.         (* Too deeply nested. Recursive "!source"? *)

(** The globals of the assembler that flow.c touches; [world] stands for the
    state of the other modules (open files, output, ...). *)
Record globals {World : Type} : Type := mk_globals {
  Input_now : addr;                 (* struct input *Input_now *)
  inputs : gmap nat input;          (* the struct input objects *)
  GotByte : Z;                      (* last byte read *)
  GlobalDynaBuf : list Z;           (* buffer[0..size) of the global buffer *)
  symbols : gmap nat symbol;        (* the struct symbol objects *)
  pass_count : Z;
  warn_on_old_for : bool;
  source_recursions_left : Z;
  Process_verbosity : Z;
  world : World
}.
Arguments globals : clear implicits.
Arguments mk_globals {World}.

Section Globals.
Context {World : Type}.
Implicit Types g : globals World.

Definition set_Input_now (a : addr) g : globals World :=
  mk_globals a (inputs g) (GotByte g) (GlobalDynaBuf g) (symbols g)
    (pass_count g) (warn_on_old_for g) (source_recursions_left g)
    (Process_verbosity g) (world g).

Definition set_inputs (m : gmap nat input) g : globals World :=
  mk_globals (Input_now g) m (GotByte g) (GlobalDynaBuf g) (symbols g)
    (pass_count g) (warn_on_old_for g) (source_recursions_left g)
    (Process_verbosity g) (world g).

Definition set_GotByte (c : Z) g : globals World :=
  mk_globals (Input_now g) (inputs g) c (GlobalDynaBuf g) (symbols g)
    (pass_count g) (warn_on_old_for g) (source_recursions_left g)
    (Process_verbosity g) (world g).

Definition set_GlobalDynaBuf (b : list Z) g : globals World :=
  mk_globals (Input_now g) (inputs g) (GotByte g) b (symbols g)
    (pass_count g) (warn_on_old_for g) (source_recursions_left g)
    (Process_verbosity g) (world g).

Definition set_symbols (m : gmap nat symbol) g : globals World :=
  mk_globals (Input_now g) (inputs g) (GotByte g) (GlobalDynaBuf g) m
    (pass_count g) (warn_on_old_for g) (source_recursions_left g)
    (Process_verbosity g) (world g).

Definition set_source_recursions_left (n : Z) g : globals World :=
  mk_globals (Input_now g) (inputs g) (GotByte g) (GlobalDynaBuf g) (symbols g)
    (pass_count g) (warn_on_old_for g) n
    (Process_verbosity g) (world g).

Definition set_world (w : World) g : globals World :=
  mk_globals (Input_now g) (inputs g) (GotByte g) (GlobalDynaBuf g) (symbols g)
    (pass_count g) (warn_on_old_for g) (source_recursions_left g)
    (Process_verbosity g) w.

(** The object a dangling pointer reads. *)
Definition dead_input : input := mk_input 0 false (src_fd 0%nat).
Definition dead_symbol : symbol := mk_symbol (mk_result 0 0) 0.

(** [*Input_now] and [*p] for a symbol pointer [p].  In the assembler
    [Input_now] always points to a live object. *)
Definition active g : input := default dead_input (inputs g !! Input_now g).
Definition symbol_at (p : addr) g : symbol := default dead_symbol (symbols g !! p).

(** [Input_now->member = ...]. *)
Definition set_active (f : input -> input) g : globals World :=
  set_inputs (<[Input_now g := f (active g)]> (inputs g)) g.

Definition with_line_number (n : Z) (i : input) : input :=
  mk_input n (source_is_ram i) (src i).
Definition with_source_is_ram (b : bool) (i : input) : input :=
  mk_input (line_number i) b (src i).
Definition with_ram_ptr (p : char_ptr) (i : input) : input :=
  mk_input (line_number i) (source_is_ram i) (src_ram p).

End Globals.

(** ** Machine integers *)

(** A signed integer of [w] bits, two's complement, as the value in
    [-2^(w-1), 2^(w-1)) that is congruent modulo [2^w]. *)
Definition half (w : positive) : Z := 2 ^ (Z.pos w - 1).
Definition swrap (w : positive) (z : Z) : Z :=
  (z + half w) mod (2 * half w) - half w.
Definition in_range (w : positive) (z : Z) : Prop := - half w <= z < half w.

(** ** Events *)

(** What one run of a handler did, in order: the blocks it had parsed and
    the blocks it had captured or skipped, the symbol values it wrote, the
    conditions it checked and the diagnostics it raised. *)
Inductive event : Type :=
| EvParse (line : Z) (s : source)     (* Parse_until_eob_or_eof, called with
                                         this line number and source active *)
| EvBlock (store : bool)              (* Input_skip_or_store_block(store) *)
| EvSetValue (p : addr) (r : result) (change_allowed : bool)
                                      (* symbol_set_value(p, &r, change_allowed) *)
| EvCheck (c : loop_condition) (r : bool)
                                      (* check_condition(&c) returned r *)
| EvError (m : message)               (* Throw_error *)
| EvSerious (m : message)             (* Throw_serious_error *)
| EvWarning (m : message)             (* Throw_first_pass_warning *)
| EvPrintf (filename : list Z).       (* the printf of Parse_and_close_file *)

(** ** The monad *)

(** Why a computation stopped without returning. *)
Inductive fault : Type :=
| Serious (m : message)               (* Throw_serious_error *)
| Bug (name : string) (code : Z).     (* Bug_found *)

Inductive outcome {World : Type} (A : Type) : Type :=
| Done (a : A) (g : globals World)    (* returned a, globals now g *)
| Stop (f : fault) (g : globals World)(* did not return *)
| Fuel.                               (* the model ran out of loop fuel *)
Arguments outcome : clear implicits.
Arguments Done {World A}.
Arguments Stop {World A}.
Arguments Fuel {World A}.

(** What a call into another module comes to. *)
Inductive answer {World : Type} (A : Type) : Type :=
| Returns (a : A) (g : globals World) (* returned a, globals now g *)
| Exits (f : fault) (g : globals World). (* stopped the assembler *)
Arguments answer : clear implicits.
Arguments Returns {World A}.
Arguments Exits {World A}.

Section Monad.
Context {World : Type}.

(** A function of another module: it changes the globals and returns, or
    stops the assembler. *)
Definition ext (A : Type) : Type := globals World -> answer World A.

Definition outcome_of {A} (r : answer World A) : outcome World A :=
  match r with
  | Returns a g => Done a g
  | Exits f g => Stop f g
  end.

(** A computation of flow.c: the events of the run and its outcome. *)
Definition M (A : Type) : Type := globals World -> list event * outcome World A.

Definition ret {A} (a : A) : M A := fun g => ([], Done a g).

Definition bind {A B} (m : M A) (k : A -> M B) : M B := fun g =>
  match m g with
  | (t, Done a g') => let (t', r) := k a g' in (t ++ t', r)
  | (t, Stop f g') => (t, Stop f g')
  | (t, Fuel) => (t, Fuel)
  end.

Definition gets {A} (f : globals World -> A) : M A := fun g => ([], Done (f g) g).
Definition modify (f : globals World -> globals World) : M unit :=
  fun g => ([], Done tt (f g)).
Definition emit (e : event) : M unit := fun g => ([e], Done tt g).
Definition stop {A} (f : fault) : M A := fun g => ([], Stop f g).
Definition out_of_fuel {A} : M A := fun _ => ([], Fuel).

(** A call of a function of another module. *)
Definition call {A} (f : ext A) : M A := fun g => ([], outcome_of (f g)).

#[global] Instance M_ret : MRet M := @ret.
#[global] Instance M_bind : MBind M := fun A B k m => bind m k.

End Monad.

(** ** The rest of the assembler *)

(** The constants, types and functions flow.c takes from its headers.  A
    function is an [ext]: it may change any global and may stop the
    assembler. *)
Class Externals (World : Type) : Type := {
  (* config.h: widths of [intval_t] and [int] *)
  intval_bits : positive;
  int_bits : positive;
  (* global.h *)
  CHAR_EOS : Z;
  CHAR_SOB : Z;
  CHAR_EOB : Z;
  CHAR_EOF : Z;
  (* alu.h *)
  MVALUE_DEFINED : Z;
  MVALUE_EXISTS : Z;
  ALU_defined_int : ext (World:=World) Z;
  (* input.h, input.c *)
  GetByte : ext (World:=World) Z;
  SKIPSPACE : ext (World:=World) unit;
  NEXTANDSKIPSPACE : ext (World:=World) unit;
  Input_read_and_lower_keyword : ext (World:=World) Z;
  Input_until_terminator : Z -> ext (World:=World) unit;
  Input_skip_or_store_block : bool -> ext (World:=World) char_ptr;
  Input_read_zone_and_keyword : ext (World:=World) (Z * Z);  (* length, zone *)
  Input_get_force_bit : ext (World:=World) Z;
  Input_accept_comma : ext (World:=World) Z;
  Input_ensure_EOS : ext (World:=World) unit;
  Input_read_filename : bool -> ext (World:=World) Z;
  Input_new_file : list Z -> FILE -> ext (World:=World) unit;
  (* symbol.c, tree.c *)
  symbol_find : Z -> Z -> ext (World:=World) addr;
  symbol_set_value : addr -> result -> bool -> ext (World:=World) unit;
  Tree_hard_scan : Z -> bool -> ext (World:=World) (option addr);
  (* global.c *)
  Parse_until_eob_or_eof : ext (World:=World) unit;
  (* stdio.h *)
  fopen : list Z -> ext (World:=World) (option FILE);
  fclose : FILE -> ext (World:=World) unit
}.

(** ** flow.c *)

Section Flow.
Context {World : Type} `{Externals World}.
#[local] Abbreviation M := (M (World:=World)).

(** Modelled from the spec: the diagnostics functions of global.c, which is
    not among the sources.  An error is reported and assembly goes on; a
    serious error is reported and nothing after it runs; a first-pass
    warning is reported. *)
Definition Throw_error (m : message) : M unit := emit (EvError m).
Definition Throw_serious_error (m : message) : M unit :=
  emit (EvSerious m);; stop (Serious m).
Definition Throw_first_pass_warning (m : message) : M unit := emit (EvWarning m).
Definition Bug_found (name : string) (code : Z) : M unit := stop (Bug name code).

(** Modelled from the spec: the dynamic buffer of dynabuf.c, which is not
    among the sources, as the list of the bytes it holds. *)
Definition DYNABUF_CLEAR : M unit := modify (set_GlobalDynaBuf []).
Definition DynaBuf_append (c : Z) : M unit :=
  modify (fun g => set_GlobalDynaBuf (GlobalDynaBuf g ++ [c]) g).
Definition DynaBuf_get_copy : M char_ptr := gets (fun g => Some (GlobalDynaBuf g)).

(** The C string at the start of a byte sequence: the bytes before the
    first NUL. *)
Fixpoint c_str (l : list Z) : list Z :=
  match l with
  | [] => []
  | c :: l' => if decide (c = 0) then [] else c :: c_str l'
  end.

Definition bytes (s : string) : list Z :=
  map (fun a => Z.of_nat (Ascii.nat_of_ascii a)) (String.list_ascii_of_string s).

(** [condkeys]: the tree that holds UNTIL and WHILE. *)
Definition condkeys : list (list Z * bool) :=
  [ (bytes "until", true);     (* UNTIL inverts the condition *)
    (bytes "while", false) ].  (* WHILE does not change the condition *)

(** Modelled from the spec: Tree_easy_scan of tree.c, which is not among the
    sources, as the lookup of the keyword held by the buffer. *)
Fixpoint Tree_easy_scan (tree : list (list Z * bool)) (buf : list Z) : option bool :=
  match tree with
  | [] => None
  | (k, node_body) :: tree' =>
      if decide (k = c_str buf) then Some node_body else Tree_easy_scan tree' buf
  end.

(** A call that leaves an event. *)
Definition traced {A} (e : globals World -> event) (f : ext A) : M A :=
  fun g => ([e g], outcome_of (f g)).

Definition ev_parse (g : globals World) : event :=
  EvParse (line_number (active g)) (src (active g)).

(** A local [struct input] whose address is taken: it gets an address that
    is not in use, and is given up when its function returns. *)
Definition top (g : globals World) : addr := fresh (dom (inputs g)).
Definition push (i : input) (g : globals World) : globals World :=
  set_inputs (<[top g := i]> (inputs g)) g.
Definition alloca (i : input) : M addr := fun g => ([], Done (top g) (push i g)).
Definition leave (a : addr) : M unit :=
  modify (fun g => set_inputs (delete a (inputs g)) g).

(** [do { ... } while (...)]: [iteration] runs the loop body on the loop's
    local variables and evaluates the loop condition. *)
Fixpoint do_while {S : Type} (fuel : nat) (iteration : S -> M (S * bool)) (s : S)
  : M S :=
  match fuel with
  | O => out_of_fuel
  | Datatypes.S fuel' =>
      '(s', go_on) ← iteration s;
      if go_on : bool then do_while fuel' iteration s' else mret s'
  end.

(** parse a loop body (could also be used for macro body) *)
Definition parse_ram_block (line_number : Z) (body : char_ptr) : M unit :=
  modify (set_active (with_line_number line_number));;
  modify (set_active (with_ram_ptr body));;
  traced ev_parse Parse_until_eob_or_eof;;
  gb ← gets GotByte;
  if decide (gb ≠ CHAR_EOB) then Bug_found "IllegalBlockTerminator" gb
  else mret tt.

(** try to read a condition into DynaBuf and store copy pointer in given
    loop_condition structure.  The structure is passed by pointer; the
    function returns what it holds afterwards. *)
Definition store_condition (condition : loop_condition) (terminator : Z)
  : M loop_condition :=
  ln ← gets (fun g => line_number (active g));
  let condition := mk_condition ln (invert condition) (body condition) in
  gb ← gets GotByte;
  if decide (gb = terminator) then
    mret (mk_condition ln false None)
  else
    len ← call Input_read_and_lower_keyword;
    if decide (len ≠ 0) then
      buf ← gets GlobalDynaBuf;
      match Tree_easy_scan condkeys buf with
      | None =>
          Throw_error exception_syntax;;
          mret (mk_condition ln false None)
      | Some node_body =>
          call SKIPSPACE;;
          DYNABUF_CLEAR;;
          call (Input_until_terminator terminator);;
          DynaBuf_append CHAR_EOS;;
          copy ← DynaBuf_get_copy;
          mret (mk_condition ln node_body copy)
      end
    else mret condition.

(** check a condition expression.  The event at the end is not code: it
    records the call and its result in the trace. *)
Definition check_condition (condition : loop_condition) : M bool :=
  r ← match body condition with
      | None => mret true
      | Some _ =>
          modify (set_active (with_line_number (line condition)));;
          modify (set_active (with_ram_ptr (body condition)));;
          call GetByte;;
          expression ← call ALU_defined_int;
          gb ← gets GotByte;
          (if decide (gb ≠ 0) then Throw_serious_error exception_syntax
           else mret tt);;
          mret (if invert condition then bool_decide (expression = 0)
                else bool_decide (expression ≠ 0))
      end;
  emit (EvCheck condition r);;
  mret r.

(** The loop of PO_do (lines 157 to 165). *)
Definition do_loop (fuel : nat) (condition1 condition2 : loop_condition)
    (loop_start : Z) (loop_body : char_ptr) : M unit :=
  do_while fuel (fun _ : unit =>
    go_on ← check_condition condition1;
    go_on ← (if go_on : bool then
               parse_ram_block loop_start loop_body;;
               check_condition condition2
             else mret go_on);
    mret (tt, go_on)) tt.

(** PO_do from the new input on (lines 149 to 177). *)
Definition do_run (fuel : nat) (condition1 condition2 : loop_condition)
    (loop_start : Z) (loop_body : char_ptr) : M eos :=
  cur ← gets active;
  loop_input ← alloca (with_source_is_ram true cur);
  outer_input ← gets Input_now;
  modify (set_Input_now loop_input);;
  do_loop fuel condition1 condition2 loop_start loop_body;;
  modify (set_Input_now outer_input);;
  modify (set_GotByte CHAR_EOS);;
  leave loop_input;;
  mret AT_EOS_ANYWAY.

(** looping assembly ("!do") *)
Definition PO_do (fuel : nat) : M eos :=
  let condition1 := mk_condition 0 false None in
  let condition2 := mk_condition 0 false None in
  call SKIPSPACE;;
  condition1 ← store_condition condition1 CHAR_SOB;
  gb ← gets GotByte;
  (if decide (gb ≠ CHAR_SOB) then Throw_serious_error exception_no_left_brace
   else mret tt);;
  loop_start ← gets (fun g => line_number (active g));
  loop_body ← traced (fun _ => EvBlock true) (Input_skip_or_store_block true);
  call NEXTANDSKIPSPACE;;
  condition2 ← store_condition condition2 CHAR_EOS;
  do_run fuel condition1 condition2 loop_start loop_body.

(** What PO_for has read when it reaches the left brace (lines 200 to 226). *)
Record for_args : Type := mk_for_args {
  for_symbol : addr;
  old_algo : bool;
  counter_first : Z;
  counter_last : Z;
  counter_increment : Z
}.

(** PO_for up to the left brace (lines 200 to 226); [None] stands for the
    two early returns of SKIP_REMAINDER. *)
Definition for_read_args : M (option for_args) :=
  '(len, zone) ← call Input_read_zone_and_keyword;
  if decide (len = 0) then mret None
  else
    force_bit ← call Input_get_force_bit;
    symbol ← call (symbol_find zone force_bit);
    comma ← call Input_accept_comma;
    if decide (comma = 0) then
      Throw_error exception_syntax;;
      mret None
    else
      first_arg ← call ALU_defined_int;
      comma ← call Input_accept_comma;
      if decide (comma ≠ 0) then
        (* new format - yay! *)
        warn ← gets warn_on_old_for;
        (if negb warn
         then Throw_first_pass_warning found_new_for_syntax
         else mret tt);;
        let counter_first := first_arg in
        counter_last ← call ALU_defined_int;
        let counter_increment := if decide (counter_last < counter_first) then -1 else 1 in
        mret (Some (mk_for_args symbol false counter_first counter_last counter_increment))
      else
        (* old format - booo! *)
        warn ← gets warn_on_old_for;
        (if warn : bool
         then Throw_first_pass_warning found_old_for_syntax
         else mret tt);;
        (if decide (first_arg < 0)
         then Throw_serious_error loop_count_is_negative
         else mret tt);;
        mret (Some (mk_for_args symbol true 0 first_arg 1)).

Definition with_intval (v : Z) (r : result) : result := mk_result (flags r) v.

(** The two loops of PO_for (lines 246 to 263); the local [loop_counter] is
    the state of the loop. *)
Definition for_loops (fuel : nat) (a : for_args) (loop_start : Z)
    (loop_body : char_ptr) (loop_counter : result) : M unit :=
  if old_algo a then
    (* old algo for old syntax: if count == 0, skip loop *)
    if decide (counter_last a ≠ 0) then
      do_while fuel (fun loop_counter : result =>
        let loop_counter :=
          with_intval (swrap intval_bits (intval loop_counter + counter_increment a))
            loop_counter in
        traced (fun _ => EvSetValue (for_symbol a) loop_counter true)
          (symbol_set_value (for_symbol a) loop_counter true);;
        parse_ram_block loop_start loop_body;;
        mret (loop_counter, bool_decide (intval loop_counter < counter_last a)))
        loop_counter;;
      mret tt
    else mret tt
  else
    (* new algo for new syntax *)
    do_while fuel (fun loop_counter : result =>
      parse_ram_block loop_start loop_body;;
      let loop_counter :=
        with_intval (swrap intval_bits (intval loop_counter + counter_increment a))
          loop_counter in
      traced (fun _ => EvSetValue (for_symbol a) loop_counter true)
        (symbol_set_value (for_symbol a) loop_counter true);;
      mret (loop_counter,
            bool_decide (intval loop_counter ≠
                         swrap intval_bits (counter_last a + counter_increment a))))
      loop_counter;;
    mret tt.

(** PO_for from the left brace on (lines 227 to 270). *)
Definition for_run (fuel : nat) (a : for_args) : M eos :=
  gb ← gets GotByte;
  (if decide (gb ≠ CHAR_SOB) then Throw_serious_error exception_no_left_brace
   else mret tt);;
  loop_start ← gets (fun g => line_number (active g));
  loop_body ← traced (fun _ => EvBlock true) (Input_skip_or_store_block true);
  cur ← gets active;
  loop_input ← alloca (with_source_is_ram true cur);
  outer_input ← gets Input_now;
  modify (set_Input_now loop_input);;
  (* init counter *)
  let loop_counter := mk_result (Z.lor MVALUE_DEFINED MVALUE_EXISTS) (counter_first a) in
  traced (fun _ => EvSetValue (for_symbol a) loop_counter true)
    (symbol_set_value (for_symbol a) loop_counter true);;
  for_loops fuel a loop_start loop_body loop_counter;;
  (* restore previous input *)
  modify (set_Input_now outer_input);;
  call GetByte;;
  leave loop_input;;
  mret ENSURE_EOS.

(** looping assembly ("!for") *)
Definition PO_for (fuel : nat) : M eos :=
  a ← for_read_args;
  match a with
  | None => mret SKIP_REMAINDER
  | Some a => for_run fuel a
  end.

(** parse or skip a block. Returns whether block's terminator was missing. *)
Definition skip_or_parse_block (parse : bool) : M Z :=
  if negb parse then
    traced (fun _ => EvBlock false) (Input_skip_or_store_block false);;
    mret 0
  else
    traced ev_parse Parse_until_eob_or_eof;;
    gb ← gets GotByte;
    (if decide (gb ≠ CHAR_EOB) then Throw_serious_error exception_no_right_brace
     else mret tt);;
    mret 0.

(** [strcmp(GlobalDynaBuf->buffer, s)] is zero *)
Definition buffer_is (s : string) (g : globals World) : bool :=
  bool_decide (c_str (GlobalDynaBuf g) = bytes s).

(** parse {block} [else {block}] *)
Definition parse_block_else_block (parse_first : bool) : M unit :=
  missing ← skip_or_parse_block parse_first;
  if decide (missing ≠ 0) then mret tt
  else
    call NEXTANDSKIPSPACE;;
    gb ← gets GotByte;
    if decide (gb = CHAR_EOS) then mret tt
    else
      len ← call Input_read_and_lower_keyword;
      (if decide (len ≠ 0) then
         is_else ← gets (buffer_is "else");
         if negb is_else then Throw_error exception_syntax
         else
           call SKIPSPACE;;
           gb ← gets GotByte;
           (if decide (gb ≠ CHAR_SOB) then Throw_serious_error exception_no_left_brace
            else mret tt);;
           skip_or_parse_block (negb parse_first);;
           call GetByte;;
           mret tt
       else mret tt);;
      call Input_ensure_EOS.

(** conditional assembly ("!if") *)
Definition PO_if : M eos :=
  cond ← call ALU_defined_int;
  gb ← gets GotByte;
  (if decide (gb ≠ CHAR_SOB) then Throw_serious_error exception_no_left_brace
   else mret tt);;
  parse_block_else_block (bool_decide (cond ≠ 0));;
  mret ENSURE_EOS.

(** [symbol->usage++] *)
Definition count_usage (p : addr) (g : globals World) : globals World :=
  let s := symbol_at p g in
  set_symbols (<[p := mk_symbol (sym_result s) (swrap int_bits (usage s + 1))]> (symbols g)) g.

(** conditional assembly ("!ifdef" and "!ifndef") *)
Definition ifdef_ifndef (invert : bool) : M eos :=
  '(len, zone) ← call Input_read_zone_and_keyword;
  if decide (len = 0) then mret SKIP_REMAINDER
  else
    node ← call (Tree_hard_scan zone false);
    defined ← match node with
              | Some symbol =>
                  (* in first pass, count usage *)
                  pass ← gets pass_count;
                  (if decide (pass = 0) then modify (count_usage symbol)
                   else mret tt);;
                  fl ← gets (fun g => flags (sym_result (symbol_at symbol g)));
                  mret (bool_decide (Z.land fl MVALUE_DEFINED ≠ 0))
              | None => mret false
              end;
    call SKIPSPACE;;
    (* if "ifndef", invert condition *)
    let defined := if invert then negb defined else defined in
    gb ← gets GotByte;
    if decide (gb ≠ CHAR_SOB) then
      mret (if defined then PARSE_REMAINDER else SKIP_REMAINDER)
    else
      parse_block_else_block defined;;
      mret ENSURE_EOS.

Definition PO_ifdef : M eos := ifdef_ifndef false.
Definition PO_ifndef : M eos := ifdef_ifndef true.

(** [Input_now->src.fd] *)
Definition active_fd (g : globals World) : FILE :=
  match src (active g) with
  | src_fd fd => fd
  | src_ram _ => 0%nat
  end.

(** parse a whole source code file *)
Definition Parse_and_close_file (fd : FILE) (filename : list Z) : M unit :=
  verbosity ← gets Process_verbosity;
  (if decide (2 < verbosity) then emit (EvPrintf filename) else mret tt);;
  call (Input_new_file filename fd);;
  traced ev_parse Parse_until_eob_or_eof;;
  gb ← gets GotByte;
  (if decide (gb ≠ CHAR_EOF)
   then Throw_error found_eob_instead_of_eof
   else mret tt);;
  fd' ← gets active_fd;
  call (fclose fd').

(** include source file ("!source" or "!src") *)
Definition PO_source : M eos :=
  (* Enter new nesting level. Quit program if recursion too deep. *)
  modify (fun g =>
    set_source_recursions_left (swrap int_bits (source_recursions_left g - 1)) g);;
  left ← gets source_recursions_left;
  (if decide (left < 0)
   then Throw_serious_error too_deeply_nested
   else mret tt);;
  (* Read file name. Quit function on error. *)
  failed ← call (Input_read_filename true);
  if decide (failed ≠ 0) then mret SKIP_REMAINDER
  else
    current ← gets GlobalDynaBuf;
    fd ← call (fopen (c_str current));
    match fd with
    | Some fd =>
        let filename := c_str current in
        outer_input ← gets Input_now;
        local_gotbyte ← gets GotByte;
        new_input ← alloca dead_input;
        modify (set_Input_now new_input);;
        Parse_and_close_file fd filename;;
        modify (set_Input_now outer_input);;
        modify (set_GotByte local_gotbyte);;
        leave new_input
    | None => Throw_error exception_cannot_open_input_file
    end;;
    (* Leave nesting level *)
    modify (fun g =>
      set_source_recursions_left (swrap int_bits (source_recursions_left g + 1)) g);;
    mret ENSURE_EOS.

End Flow.

Section Macro.
Context {World : Type} `{Externals World}.
#[local] Abbreviation M := (M (World:=World)).

(** Macro_parse_definition of macro.c, which is not among the sources. *)
Variable Macro_parse_definition : ext (World:=World) unit.

(** [while (...) ...]: the condition is evaluated before each pass. *)
Fixpoint while_do (fuel : nat) (condition : M bool) (body : M unit) : M unit :=
  match fuel with
  | O => out_of_fuel
  | S fuel' =>
      go_on ← condition;
      if go_on : bool then body;; while_do fuel' condition body else mret tt
  end.

(** macro definition ("!macro") *)
Definition PO_macro (fuel : nat) : M eos :=
  (* In first pass, parse. In all other passes, skip. *)
  pass ← gets pass_count;
  (if decide (pass = 0) then
     call Macro_parse_definition
   else
     (* skip until CHAR_SOB is found *)
     while_do fuel (gb ← gets GotByte; mret (bool_decide (gb ≠ CHAR_SOB)))
       (call GetByte;; mret tt);;
     traced (fun _ => EvBlock false) (Input_skip_or_store_block false);;
     mret tt);;
  call GetByte;;   (* Proceed with next character *)
  mret ENSURE_EOS.

End Macro.

(** ** The vocabulary of the statements *)

Section Vocabulary.
Context {World : Type} `{E : Externals World}.
Implicit Types g : globals World.

(** The events [t], then the run [p]. *)
Definition after {A} (t : list event) (p : list event * outcome World A)
  : list event * outcome World A := (t ++ p.1, p.2).

(** What [--source_recursions_left] leaves. *)
Definition entered g : globals World :=
  set_source_recursions_left (swrap int_bits (source_recursions_left g - 1)) g.

(** The active input as check_condition sets it up for the evaluation of
    the expression [b] of line [ln]. *)
Definition set_up (ln : Z) (b : char_ptr) g : globals World :=
  set_active (with_ram_ptr b) (set_active (with_line_number ln) g).

(** The flags of the loop counter. *)
Definition counter_flags : Z := Z.lor MVALUE_DEFINED MVALUE_EXISTS.

(** The globals when the new input of a loop has been set up: the copy of
    the active input is a new object, and it is the active one. *)
Definition switched g : globals World :=
  set_Input_now (top g) (push (with_source_is_ram true (active g)) g).

(** [n] turns of the loop of "!do" that go on: head condition true, body
    parsed, tail condition true. *)
Definition rounds (c1 c2 : loop_condition) (b : event) (n : nat) : list event :=
  concat (replicate n [EvCheck c1 true; b; EvCheck c2 true]).

(** [m] values from [k] on in steps of [inc]. *)
Fixpoint count (k inc : Z) (m : nat) : list Z :=
  match m with
  | O => []
  | S m' => k :: count (k + inc) inc m'
  end.

(** The values from [first] to [last], both included, going up when
    [first <= last] and down otherwise. *)
Definition counter_values (first last : Z) : list Z :=
  count first (if decide (last < first) then -1 else 1)
    (S (Z.to_nat (Z.abs (last - first)))).

(** The events of one pass of a counting loop: the symbol [p] is given the
    value [v], then the body is parsed. *)
Definition pass (p : addr) (ls : Z) (lb : char_ptr) (fl : Z) (v : Z) : list event :=
  [EvSetValue p (mk_result fl v) true; EvParse ls (src_ram lb)].

(** The warnings about the syntax of "!for". *)
Definition warn_old g : list event :=
  if warn_on_old_for g then [EvWarning found_old_for_syntax] else [].
Definition warn_new g : list event :=
  if warn_on_old_for g then [] else [EvWarning found_new_for_syntax].

(** The globals after the usage count of a symbol that was found. *)
Definition counted (node : option addr) g : globals World :=
  match node with
  | Some p => if decide (pass_count g = 0) then count_usage p g else g
  | None => g
  end.

(** "The symbol exists and carries the defined flag". *)
Definition is_defined (node : option addr) g : bool :=
  match node with
  | Some p => bool_decide (Z.land (flags (sym_result (symbol_at p g))) MVALUE_DEFINED <> 0)
  | None => false
  end.

(** The blocks of a trace, in order: [true] for a block that was parsed as
    statements, [false] for a block that was skipped. *)
Definition block_events (t : list event) : list bool :=
  flat_map (fun e => match e with
                     | EvParse _ _ => [true]
                     | EvBlock false => [false]
                     | _ => []
                     end) t.

(** The event of skip_or_parse_block. *)
Definition block_event (parse : bool) g : event :=
  if parse then ev_parse g else EvBlock false.

End Vocabulary.

Section MoreVocabulary.
Context {World : Type} `{E : Externals World}.
Implicit Types g : globals World.

(** The globals after [n] calls of GetByte, the first that finds CHAR_SOB
    in GotByte: [None] if CHAR_SOB is there earlier, or is not there then,
    or a call does not return. *)
Fixpoint advance (n : nat) g : option (globals World) :=
  match n with
  | O => if decide (GotByte g = CHAR_SOB) then Some g else None
  | S n' =>
      if decide (GotByte g = CHAR_SOB) then None
      else match GetByte g with
           | Returns _ g' => advance n' g'
           | Exits _ _ => None
           end
  end.

(** The blocks a trace read from the input with Input_skip_or_store_block:
    [true] for a block that was stored, [false] for one that was skipped. *)
Definition captures (t : list event) : list bool :=
  flat_map (fun e => match e with EvBlock store => [store] | _ => [] end) t.

(** The events a counting loop can leave once it has read its arguments:
    the missing left brace, the capture of the body, a write to the symbol
    of the loop with the counter flags and with overwriting allowed, a
    parse of the body. *)
Definition for_event (a : for_args) (ls : Z) (e : event) : Prop :=
  match e with
  | EvSerious m => m = exception_no_left_brace
  | EvBlock store => store = true
  | EvSetValue p r change_allowed =>
      p = for_symbol a /\ flags r = counter_flags /\ change_allowed = true
  | EvParse l (src_ram _) => l = ls
  | _ => False
  end.

(** The events of the loop of "!do": checks of the two conditions, parses
    of the body from memory, the serious error of a check. *)
Definition do_event (c1 c2 : loop_condition) (ls : Z) (lb : char_ptr) (e : event) : Prop :=
  match e with
  | EvCheck c _ => c = c1 \/ c = c2
  | EvParse l s => l = ls /\ s = src_ram lb
  | EvSerious m => m = exception_syntax
  | _ => False
  end.

(** The events a conditional can leave: a parse of a block where it
    stands, a block that is skipped, the syntax error for a keyword that is
    not "else", the serious errors for a missing brace. *)
Definition if_event (e : event) : Prop :=
  match e with
  | EvParse _ _ => True
  | EvBlock store => store = false
  | EvError m => m = exception_syntax
  | EvSerious m => m = exception_no_left_brace \/ m = exception_no_right_brace
  | _ => False
  end.

End MoreVocabulary.

(** ** The calls behind a run *)

(** The statements say where the calls of a handler into the rest of the
    assembler take the globals.  Each function below is the state after one
    call, or after some calls in a row, that returned; [None] when a call
    did not return or did not leave what the handler needs to go on. *)
Section Calls.
Context {World : Type} `{E : Externals World}.
Implicit Types g : globals World.

(** Parse_until_eob_or_eof has parsed the statements from where the input
    stands, and has ended at a right brace. *)
Definition parsed g : option (globals World) :=
  match Parse_until_eob_or_eof g with
  | Returns _ g' => if decide (GotByte g' = CHAR_EOB) then Some g' else None
  | Exits _ _ => None
  end.

(** Input_skip_or_store_block(FALSE) has skipped a block. *)
Definition skipped g : option (globals World) :=
  match Input_skip_or_store_block false g with
  | Returns _ g' => Some g'
  | Exits _ _ => None
  end.

(** A block has been parsed, or skipped. *)
Definition handled (parse : bool) g : option (globals World) :=
  if parse then parsed g else skipped g.

(** The body [lb] of a loop has been parsed: the active input has been
    given the line number [ls] and the read pointer [lb], then
    Parse_until_eob_or_eof has parsed from there up to the right brace. *)
Definition body_parsed (ls : Z) (lb : char_ptr) g : option (globals World) :=
  parsed (set_up ls lb g).

(** symbol_set_value has written [r] to the symbol [p], with overwriting
    allowed. *)
Definition written (p : addr) (r : result) g : option (globals World) :=
  match symbol_set_value p r true g with
  | Returns _ g' => Some g'
  | Exits _ _ => None
  end.

(** One pass of a counting loop: the symbol [p] has been given the value
    [v], then the body has been parsed.  And one pass after the other for
    the values [vs]. *)
Definition pass_calls (p : addr) (ls : Z) (lb : char_ptr) (fl : Z) (v : Z) g
  : option (globals World) :=
  g1 ← written p (mk_result fl v) g; body_parsed ls lb g1.

Fixpoint passes_calls (p : addr) (ls : Z) (lb : char_ptr) (fl : Z) (vs : list Z) g
  : option (globals World) :=
  match vs with
  | [] => Some g
  | v :: vs' => g' ← pass_calls p ls lb fl v g; passes_calls p ls lb fl vs' g'
  end.

(** check_condition has returned [r]. *)
Definition checked (c : loop_condition) (r : bool) g : option (globals World) :=
  match check_condition c g with
  | (_, Done r' g') => if decide (r' = r) then Some g' else None
  | _ => None
  end.

(** One turn of the loop of "!do" that goes on: the head condition has
    been checked and is true, the body has been parsed, the tail condition
    has been checked and is true.  And [n] such turns in a row. *)
Definition turn (c1 c2 : loop_condition) (ls : Z) (lb : char_ptr) g
  : option (globals World) :=
  g1 ← checked c1 true g; g2 ← body_parsed ls lb g1; checked c2 true g2.

Fixpoint turns (c1 c2 : loop_condition) (ls : Z) (lb : char_ptr) (n : nat) g
  : option (globals World) :=
  match n with
  | O => Some g
  | S n' => g' ← turn c1 c2 ls lb g; turns c1 c2 ls lb n' g'
  end.

(** What ends the run when the parse of the body of a loop does not come
    back to the loop: the fault with which Parse_until_eob_or_eof stopped
    the assembler, or the Bug_found of parse_ram_block when the parse ended
    at something that is not a right brace. *)
Definition body_fault (ls : Z) (lb : char_ptr) g : option (fault * globals World) :=
  match Parse_until_eob_or_eof (set_up ls lb g) with
  | Returns _ g' =>
      if decide (GotByte g' = CHAR_EOB) then None
      else Some (Bug "IllegalBlockTerminator" (GotByte g'), g')
  | Exits ft g' => Some (ft, g')
  end.

End Calls.

(** ** A small assembler around flow.c *)

(** An instance of [Externals] on which the handlers can be run: a lexer
    over byte lists in which byte 0 ends a statement, an expression
    evaluator for decimal literals, symbols addressed by the first letter
    of their name, files held in a table, and a statement parser that
    writes the value of every defined symbol it meets in a block to the
    output.  It stands in for input.c, alu.c, symbol.c, tree.c and global.c
    where a statement is tried on an example. *)
Module Toy.

Record toy_world : Type := mk_world {
  fs : list (list Z * list Z);      (* file name, content *)
  opened : list (list Z);           (* what is left to read of each handle *)
  output : list Z
}.

Abbreviation G := (globals toy_world).

Definition EOS : Z := 0.
Definition SOB : Z := 123.
Definition EOB : Z := 125.
Definition EOF : Z := 13.
Definition DEFINED : Z := 16.
Definition EXISTS : Z := 64.

(** What is left to read of the active input. *)
Definition rest (g : G) : list Z :=
  match src (active g) with
  | src_ram p => default [] p
  | src_fd fd => default [] (opened (world g) !! fd)
  end.

Definition set_rest (l : list Z) (g : G) : G :=
  match src (active g) with
  | src_ram _ => set_active (with_ram_ptr (Some l)) g
  | src_fd fd =>
      set_world (mk_world (fs (world g)) (<[fd := l]> (opened (world g)))
                   (output (world g))) g
  end.

(** The byte in [GotByte] and what follows it; and the way back. *)
Definition stream (g : G) : list Z := GotByte g :: rest g.
Definition put_stream (l : list Z) (g : G) : G :=
  match l with
  | c :: l' => set_GotByte c (set_rest l' g)
  | [] => set_GotByte EOF (set_rest [] g)
  end.

Definition next (g : G) : G := put_stream (rest g) g.
Definition skip_space (g : G) : G := if decide (GotByte g = 32) then next g else g.

Definition is_letter (c : Z) : bool :=
  bool_decide (97 <= c <= 122) || bool_decide (65 <= c <= 90).
Definition lower (c : Z) : Z := if bool_decide (65 <= c <= 90) then c + 32 else c.
Definition is_digit (c : Z) : bool := bool_decide (48 <= c <= 57).

Fixpoint span (p : Z -> bool) (l : list Z) : list Z * list Z :=
  match l with
  | c :: l' => if p c then let (a, b) := span p l' in (c :: a, b) else ([], l)
  | [] => ([], [])
  end.

(** Reads a keyword into the global buffer, in lower case and with a NUL
    after it; returns its length. *)
Definition read_keyword (g : G) : Z * G :=
  let (k, l) := span is_letter (stream g) in
  (Z.of_nat (length k), set_GlobalDynaBuf (map lower k ++ [0]) (put_stream l g)).

Definition digits_value (k : list Z) : Z :=
  fold_left (fun acc c => 10 * acc + (c - 48)) k 0.

(** A decimal literal with an optional minus sign, and the blanks after
    it. *)
Definition read_int (g : G) : Z * G :=
  let g := skip_space g in
  match stream g with
  | 45 :: l =>
      let (k, l') := span is_digit l in (- digits_value k, skip_space (put_stream l' g))
  | l =>
      let (k, l') := span is_digit l in (digits_value k, skip_space (put_stream l' g))
  end.

(** The bytes up to a terminator or the end of the statement. *)
Definition until_terminator (t : Z) (g : G) : G :=
  let (k, l) := span (fun c => negb (bool_decide (c = t) || bool_decide (c = EOS)))
                  (stream g) in
  set_GlobalDynaBuf (GlobalDynaBuf g ++ k) (put_stream l g).

(** The block that starts after a left brace: its bytes up to and with the
    matching right brace, and the input from that brace on. *)
Fixpoint block_end (depth : nat) (l : list Z) : option (list Z * list Z) :=
  match l with
  | [] => None
  | c :: l' =>
      if decide (c = EOB) then
        match depth with
        | O => Some ([c], l)
        | S d => '(b, r) ← block_end d l'; Some (c :: b, r)
        end
      else
        '(b, r) ← block_end (if decide (c = SOB) then S depth else depth) l';
        Some (c :: b, r)
  end.

Definition skip_or_store_block (store : bool) (g : G) : answer toy_world char_ptr :=
  match block_end 0 (rest g) with
  | None => Exits (Serious exception_no_right_brace) (put_stream [] g)
  | Some (b, r) =>
      Returns (if store then Some (b ++ [EOS; EOF]) else None) (put_stream r g)
  end.

(** The address of the symbol whose name is in the global buffer. *)
Definition name_addr (g : G) : nat := Z.to_nat (default 0 (head (GlobalDynaBuf g))).

Definition find_symbol (g : G) : nat * G :=
  let p := name_addr g in
  match symbols g !! p with
  | Some _ => (p, g)
  | None => (p, set_symbols (<[p := dead_symbol]> (symbols g)) g)
  end.

Definition set_value (p : nat) (r : result) (change_allowed : bool) (g : G) : G :=
  let s := symbol_at p g in
  if change_allowed || bool_decide (Z.land (flags (sym_result s)) DEFINED = 0) then
    set_symbols (<[p := mk_symbol r (usage s)]> (symbols g)) g
  else g.

(** The statements of a block: every letter that names a defined symbol
    writes the value of the symbol to the output; a right brace that closes
    the block, or the end of the input, ends them. *)
Fixpoint statements (sy : gmap nat symbol) (depth : nat) (l : list Z)
  : list Z * list Z :=
  match l with
  | [] => ([], [])
  | c :: l' =>
      if decide (c = EOF) then ([], l)
      else if decide (c = EOB) then
        match depth with
        | O => ([], l)
        | S d => statements sy d l'
        end
      else
        let (o, r) := statements sy (if decide (c = SOB) then S depth else depth) l' in
        match sy !! Z.to_nat c with
        | Some s =>
            if bool_decide (Z.land (flags (sym_result s)) DEFINED = 0) then (o, r)
            else (intval (sym_result s) :: o, r)
        | None => (o, r)
        end
  end.

Definition parse_statements (g : G) : G :=
  let (o, r) := statements (symbols g) 0 (rest g) in
  set_world (mk_world (fs (world g)) (opened (world g)) (output (world g) ++ o))
    (put_stream r g).

Definition accept_comma (g : G) : Z * G :=
  let g := skip_space g in
  if decide (GotByte g = 44) then (1, skip_space (next g)) else (0, g).

Definition ensure_EOS (g : G) : G :=
  let (_, l) := span (fun c => negb (bool_decide (c = EOS))) (stream g) in
  put_stream l g.

(** A file name between double quotes; returns nonzero if there is none. *)
Definition read_filename (g : G) : Z * G :=
  let g := skip_space g in
  if decide (GotByte g = 34) then
    let (k, l) := span (fun c => negb (bool_decide (c = 34) || bool_decide (c = EOS)))
                    (rest g) in
    match l with
    | 34 :: l' => (0, set_GlobalDynaBuf (k ++ [0]) (put_stream l' g))
    | _ => (1, put_stream l g)
    end
  else (1, g).

Fixpoint find_file (name : list Z) (files : list (list Z * list Z)) : option (list Z) :=
  match files with
  | [] => None
  | (n, c) :: files' => if decide (n = name) then Some c else find_file name files'
  end.

Definition open_file (name : list Z) (g : G) : option nat * G :=
  match find_file name (fs (world g)) with
  | Some c =>
      (Some (length (opened (world g))),
       set_world (mk_world (fs (world g)) (opened (world g) ++ [c])
                    (output (world g))) g)
  | None => (None, g)
  end.

Definition ok {A} (f : G -> A * G) : ext (World:=toy_world) A :=
  fun g => let (a, g') := f g in Returns a g'.
Definition ok_ (f : G -> G) : ext (World:=toy_world) unit := fun g => Returns tt (f g).

#[global] Instance toy : Externals toy_world := {|
  intval_bits := 32;
  int_bits := 32;
  CHAR_EOS := EOS;
  CHAR_SOB := SOB;
  CHAR_EOB := EOB;
  CHAR_EOF := EOF;
  MVALUE_DEFINED := DEFINED;
  MVALUE_EXISTS := EXISTS;
  ALU_defined_int := ok read_int;
  GetByte := fun g => Returns (GotByte (next g)) (next g);
  SKIPSPACE := ok_ skip_space;
  NEXTANDSKIPSPACE := ok_ (fun g => skip_space (next g));
  Input_read_and_lower_keyword := ok read_keyword;
  Input_until_terminator := fun t => ok_ (until_terminator t);
  Input_skip_or_store_block := skip_or_store_block;
  Input_read_zone_and_keyword := ok (fun g =>
    let (n, g') := read_keyword (skip_space g) in ((n, 0), g'));
  Input_get_force_bit := ok (fun g => (0, skip_space g));
  Input_accept_comma := ok accept_comma;
  Input_ensure_EOS := ok_ ensure_EOS;
  Input_read_filename := fun _ => ok read_filename;
  Input_new_file := fun _ fd =>
    ok_ (set_active (fun _ => mk_input 1 false (src_fd fd)));
  symbol_find := fun _ _ => ok find_symbol;
  symbol_set_value := fun p r c => ok_ (set_value p r c);
  Tree_hard_scan := fun _ _ g =>
    Returns (match symbols g !! name_addr g with
          | Some _ => Some (name_addr g)
          | None => None
          end) g;
  Parse_until_eob_or_eof := ok_ parse_statements;
  fopen := fun name => ok (open_file name);
  fclose := fun _ => ok_ id
|}.

(** The globals at the time a handler is called: the top-level input is a
    RAM copy of the text that follows the pseudo opcode, its first byte
    already in [GotByte]. *)
Definition start (source_text : list Z) (files : list (list Z * list Z)) : G :=
  put_stream source_text
    (mk_globals 0%nat {[ 0%nat := mk_input 1 true (src_ram (Some [])) ]} 0 []
       ∅ 0 false 64 0 (mk_world files [] [])).

(** The same with symbols that are already defined. *)
Definition start_with (values : list (nat * Z)) (source_text : list Z) : G :=
  set_symbols (list_to_map (map (fun '(p, v) => (p, mk_symbol (mk_result DEFINED v) 0))
                              values))
    (start source_text []).

(** The same globals in another pass. *)
Definition in_pass (n : Z) (g : G) : G :=
  mk_globals (Input_now g) (inputs g) (GotByte g) (GlobalDynaBuf g) (symbols g)
    n (warn_on_old_for g) (source_recursions_left g) (Process_verbosity g) (world g).

(** A macro definition: what is in front of the left brace is the head,
    the block is the body; both are read and forgotten. *)
Fixpoint to_sob (l : list Z) : list Z :=
  match l with
  | [] => []
  | c :: l' => if decide (c = SOB) then l else to_sob l'
  end.

Definition parse_macro_definition : ext (World:=toy_world) unit := fun g =>
  match skip_or_store_block false (put_stream (to_sob (stream g)) g) with
  | Returns _ g' => Returns tt g'
  | Exits f g' => Exits f g'
  end.

(** What a run has written to the output. *)
Definition assembled {A} (r : list event * outcome toy_world A) : list Z :=
  match r.2 with
  | Done _ g | Stop _ g => output (world g)
  | Fuel => []
  end.

End Toy.

(** * Properties *)

(** ** Running a computation step by step *)

Section Steps.
Context {World : Type}.
Implicit Types g : globals World.
#[local] Abbreviation M := (M (World:=World)).

Lemma after_nil {A} (p : list event * outcome World A) : after [] p = p.
Proof. destruct p. reflexivity. Qed.

Lemma after_pair {A} t t' (r : outcome World A) : after t (t', r) = (t ++ t', r).
Proof. reflexivity. Qed.

Lemma after_after {A} t t' (p : list event * outcome World A) :
  after t (after t' p) = after (t ++ t') p.
Proof. destruct p. unfold after. simpl. rewrite app_assoc. reflexivity. Qed.

Lemma after_ret {A} t (a : A) g : after t ((mret a : M A) g) = (t, Done a g).
Proof. unfold after. simpl. rewrite app_nil_r. reflexivity. Qed.

Lemma bind_done {A B} (m : M A) (k : A -> M B) g t a g' :
  m g = (t, Done a g') -> (m ≫= k) g = after t (k a g').
Proof.
  intros Hm. unfold mbind, M_bind, bind. rewrite Hm.
  destruct (k a g'). reflexivity.
Qed.

Lemma bind_stop {A B} (m : M A) (k : A -> M B) g t f g' :
  m g = (t, Stop f g') -> (m ≫= k) g = (t, Stop f g').
Proof. intros Hm. unfold mbind, M_bind, bind. rewrite Hm. reflexivity. Qed.

Lemma bind_ret {A B} (a : A) (k : A -> M B) g : (mret a ≫= k) g = k a g.
Proof. erewrite bind_done by reflexivity. apply after_nil. Qed.

Lemma bind_gets {A B} (f : globals World -> A) (k : A -> M B) g :
  (gets f ≫= k) g = k (f g) g.
Proof. erewrite bind_done by reflexivity. apply after_nil. Qed.

Lemma bind_modify {B} (f : globals World -> globals World) (k : unit -> M B) g :
  (modify f ≫= k) g = k tt (f g).
Proof. erewrite bind_done by reflexivity. apply after_nil. Qed.

Lemma bind_emit {B} (e : event) (k : unit -> M B) g :
  (emit e ≫= k) g = after [e] (k tt g).
Proof. erewrite bind_done by reflexivity. reflexivity. Qed.

Lemma bind_call {A B} (f : ext A) (k : A -> M B) g a g' :
  f g = Returns a g' -> (call f ≫= k) g = k a g'.
Proof.
  intros Hf. erewrite bind_done by (unfold call; rewrite Hf; reflexivity).
  apply after_nil.
Qed.

Lemma bind_traced {A B} (e : globals World -> event) (f : ext A) (k : A -> M B)
    g a g' :
  f g = Returns a g' -> (traced e f ≫= k) g = after [e g] (k a g').
Proof.
  intros Hf. erewrite bind_done by (unfold traced; rewrite Hf; reflexivity).
  reflexivity.
Qed.

Lemma bind_call_any {A B} (f : ext A) (k : A -> M B) g :
  (call f ≫= k) g
  = match f g with
    | Returns a g' => k a g'
    | Exits ft g' => ([], Stop ft g')
    end.
Proof.
  destruct (f g) as [a g'|ft g'] eqn:Hf.
  - apply bind_call, Hf.
  - apply bind_stop. unfold call. rewrite Hf. reflexivity.
Qed.

Lemma bind_traced_any {A B} (e : globals World -> event) (f : ext A)
    (k : A -> M B) g :
  (traced e f ≫= k) g
  = after [e g] match f g with
                | Returns a g' => k a g'
                | Exits ft g' => ([], Stop ft g')
                end.
Proof.
  destruct (f g) as [a g'|ft g'] eqn:Hf.
  - apply bind_traced, Hf.
  - apply bind_stop. unfold traced. rewrite Hf. reflexivity.
Qed.

Lemma bind_ret_inv {A B} (m : M A) (b : B) g t g' :
  (m ≫= fun _ => mret b) g = (t, Done b g') -> exists a, m g = (t, Done a g').
Proof.
  unfold mbind, M_bind, bind. destruct (m g) as [t' [a g1|ft g1|]]; try discriminate.
  simpl. rewrite app_nil_r. intros [= -> ->]. exists a. reflexivity.
Qed.

Lemma bind_mret_r {A} (m : M A) g : (m ≫= mret) g = m g.
Proof.
  unfold mbind, M_bind, bind. destruct (m g) as [t [a g'|ft g'|]]; try reflexivity.
  simpl. rewrite app_nil_r. reflexivity.
Qed.

Lemma bind_done_inv {A B} (m : M A) (k : A -> M B) g t b g' :
  (m ≫= k) g = (t, Done b g') ->
  exists t1 a g1 t2,
    m g = (t1, Done a g1) /\ k a g1 = (t2, Done b g') /\ t = t1 ++ t2.
Proof.
  unfold mbind, M_bind, bind. destruct (m g) as [t1 [a g1|ft g1|]]; try discriminate.
  destruct (k a g1) as [t2 r] eqn:Hk. intros [= <- ->].
  exists t1, a, g1, t2. auto.
Qed.

Lemma after_done_inv {A} (t : list event) (p : list event * outcome World A) t' a g' :
  after t p = (t', Done a g') -> exists t2, p = (t2, Done a g') /\ t' = t ++ t2.
Proof.
  destruct p as [t2 r]. unfold after. simpl. intros [= <- ->]. exists t2. auto.
Qed.

Lemma bind_fuel_inv {A B} (m : M A) (k : A -> M B) g t :
  (m ≫= k) g = (t, Fuel) ->
  m g = (t, Fuel) \/
  exists t1 a g1 t2, m g = (t1, Done a g1) /\ k a g1 = (t2, Fuel) /\ t = t1 ++ t2.
Proof.
  unfold mbind, M_bind, bind. destruct (m g) as [t1 [a g1|ft g1|]]; try discriminate.
  - destruct (k a g1) as [t2 r] eqn:Hk. intros [= <- ->].
    right. exists t1, a, g1, t2. auto.
  - intros [= <-]. left. reflexivity.
Qed.

Lemma bind_alloca {B} (i : input) (k : addr -> M B) g :
  (alloca i ≫= k) g = k (top g) (push i g).
Proof. erewrite bind_done by reflexivity. apply after_nil. Qed.

Lemma bind_assoc {A B C} (m : M A) (k : A -> M B) (k' : B -> M C) g :
  ((m ≫= k) ≫= k') g = (m ≫= (fun a => k a ≫= k')) g.
Proof.
  unfold mbind, M_bind, bind. destruct (m g) as [t [a g'|f g'|]]; try reflexivity.
  destruct (k a g') as [t' [b g''|f g''|]]; try reflexivity.
  destruct (k' b g''). rewrite app_assoc. reflexivity.
Qed.

End Steps.

Ltac step :=
  first [ rewrite bind_ret | rewrite bind_gets | rewrite bind_modify
        | rewrite bind_emit | rewrite bind_alloca | rewrite bind_assoc ];
  cbv beta.

Ltac steps := repeat step.

Ltac step_in H :=
  first [ rewrite bind_ret in H | rewrite bind_gets in H | rewrite bind_modify in H
        | rewrite bind_emit in H | rewrite bind_alloca in H | rewrite bind_assoc in H ];
  cbv beta in H.

Ltac steps_in H := repeat step_in H.

Section Basics.
Context {World : Type}.
Implicit Types g : globals World.

Lemma active_set_active (f : input -> input) g :
  active (set_active f g) = f (active g).
Proof.
  unfold active, set_active. simpl. rewrite lookup_insert_eq. reflexivity.
Qed.

Lemma half_pos (w : positive) : 0 < half w.
Proof. unfold half. apply Z.pow_pos_nonneg; lia. Qed.

Lemma swrap_in_range (w : positive) (z : Z) : in_range w z -> swrap w z = z.
Proof.
  unfold in_range, swrap. intros Hz. pose proof (half_pos w).
  rewrite Z.mod_small by lia. lia.
Qed.

(** Flags that hold all the bits of [d | e] hold the bits of [d] and of [e]. *)
Lemma flags_kept (fl d e : Z) :
  Z.land fl (Z.lor d e) = Z.lor d e -> Z.land fl d = d /\ Z.land fl e = e.
Proof.
  intros Hfl. split; apply Z.bits_inj'; intros n Hn;
    apply (f_equal (fun z => Z.testbit z n)) in Hfl;
    rewrite Z.land_spec, Z.lor_spec in Hfl; rewrite Z.land_spec;
    destruct (Z.testbit fl n), (Z.testbit d n), (Z.testbit e n);
    simpl in *; congruence.
Qed.

End Basics.

Section SourceProofs.
Context {World : Type} `{E : Externals World}.
Implicit Types g : globals World.

(** C10.  When "!source" cannot read its file name, it returns
    SKIP_REMAINDER with the inclusion budget one lower than it found it:
    nothing on that path gives the level back.  When the file cannot be
    opened, and when it was parsed, the handler adds one to the budget
    before it returns ENSURE_EOS; these are its only two increments. *)
Theorem PO_source_budget g :
  1 <= source_recursions_left g ->
  in_range int_bits (source_recursions_left g) ->
  (* the file name cannot be read *)
  (forall failed g2,
     Input_read_filename true (entered g) = Returns failed g2 ->
     failed <> 0 ->
     source_recursions_left g2 = source_recursions_left (entered g) ->
     PO_source g = ([], Done SKIP_REMAINDER g2) /\
     source_recursions_left g2 = source_recursions_left g - 1) /\
  (* the file cannot be opened *)
  (forall g2 g3,
     Input_read_filename true (entered g) = Returns 0 g2 ->
     fopen (c_str (GlobalDynaBuf g2)) g2 = Returns None g3 ->
     source_recursions_left g3 = source_recursions_left (entered g) ->
     exists g',
       PO_source g = ([EvError exception_cannot_open_input_file], Done ENSURE_EOS g') /\
       source_recursions_left g' = source_recursions_left g) /\
  (* the file is parsed *)
  (forall g2 fd g3 t g4,
     Input_read_filename true (entered g) = Returns 0 g2 ->
     fopen (c_str (GlobalDynaBuf g2)) g2 = Returns (Some fd) g3 ->
     Parse_and_close_file fd (c_str (GlobalDynaBuf g2))
       (set_Input_now (top g3) (push dead_input g3)) = (t, Done tt g4) ->
     source_recursions_left g4 = source_recursions_left (entered g) ->
     exists g',
       PO_source g = (t, Done ENSURE_EOS g') /\
       source_recursions_left g' = source_recursions_left g).
Proof.
  intros Hpos Hrange.
  assert (Hdec : source_recursions_left (entered g) = source_recursions_left g - 1).
  { unfold entered. simpl. apply swrap_in_range.
    unfold in_range in *. pose proof (half_pos int_bits). lia. }
  assert (Hinc : swrap int_bits (source_recursions_left g - 1 + 1)
                 = source_recursions_left g).
  { rewrite swrap_in_range; [lia|]. replace (_ - 1 + 1) with (source_recursions_left g) by lia.
    exact Hrange. }
  assert (Hstart : forall r,
            (failed ← call (Input_read_filename true);
             if decide (failed <> 0) then mret SKIP_REMAINDER
             else
               current ← gets GlobalDynaBuf;
               fd ← call (fopen (c_str current));
               match fd with
               | Some fd =>
                   let filename := c_str current in
                   outer_input ← gets Input_now;
                   local_gotbyte ← gets GotByte;
                   new_input ← alloca dead_input;
                   modify (set_Input_now new_input);;
                   Parse_and_close_file fd filename;;
                   modify (set_Input_now outer_input);;
                   modify (set_GotByte local_gotbyte);;
                   leave new_input
               | None => Throw_error exception_cannot_open_input_file
               end;;
               modify (fun g =>
                 set_source_recursions_left
                   (swrap int_bits (source_recursions_left g + 1)) g);;
               mret ENSURE_EOS) (entered g) = r ->
            PO_source g = r).
  { intros r <-. unfold PO_source. steps. fold (entered g). rewrite Hdec.
    destruct (decide (source_recursions_left g - 1 < 0)); [lia|]. steps.
    reflexivity. }
  split; [|split].
  - intros failed g2 Hread Hfailed Hframe. split; [|lia].
    apply Hstart. rewrite (bind_call _ _ _ _ _ Hread).
    destruct (decide (failed <> 0)); [reflexivity|contradiction].
  - intros g2 g3 Hread Hopen Hframe.
    eexists. split.
    + apply Hstart. rewrite (bind_call _ _ _ _ _ Hread).
      destruct (decide (0 <> 0)); [contradiction|]. steps.
      rewrite (bind_call _ _ _ _ _ Hopen). unfold Throw_error. steps.
      reflexivity.
    + simpl. rewrite Hframe, Hdec. exact Hinc.
  - intros g2 fd g3 t g4 Hread Hopen Hparse Hframe.
    eexists. split.
    + apply Hstart. rewrite (bind_call _ _ _ _ _ Hread).
      destruct (decide (0 <> 0)); [contradiction|]. steps.
      rewrite (bind_call _ _ _ _ _ Hopen). cbv beta zeta. steps.
      rewrite (bind_done _ _ _ _ _ _ Hparse). steps.
      unfold leave. steps. rewrite after_ret. reflexivity.
    + simpl. rewrite Hframe, Hdec. exact Hinc.
Qed.

End SourceProofs.

Section ConditionProofs.
Context {World : Type} `{E : Externals World}.
Implicit Types g : globals World.

Lemma check_condition_null (ln : Z) (inv : bool) g :
  check_condition (mk_condition ln inv None) g
  = ([EvCheck (mk_condition ln inv None) true], Done true g).
Proof. unfold check_condition. simpl. steps. reflexivity. Qed.

Lemma check_condition_stored (c : loop_condition) (b : list Z) g c0 g1 v g2 :
  body c = Some b ->
  GetByte (set_up (line c) (Some b) g) = Returns c0 g1 ->
  ALU_defined_int g1 = Returns v g2 ->
  GotByte g2 = 0 ->
  let r := if invert c then bool_decide (v = 0) else bool_decide (v <> 0) in
  check_condition c g = ([EvCheck c r], Done r g2).
Proof.
  intros Hb Hget Halu Hgot r. unfold check_condition. rewrite Hb. steps.
  fold (set_up (line c) (Some b) g).
  rewrite (bind_call _ _ _ _ _ Hget). steps.
  rewrite (bind_call _ _ _ _ _ Halu). steps.
  rewrite Hgot. destruct (decide (0 <> 0)); [contradiction|]. steps.
  reflexivity.
Qed.

(** C4.  A condition without a stored expression is true whatever its
    invert flag says.  A stored condition is evaluated by ALU_defined_int;
    when nothing is left after the expression, an "until" condition is the
    negation of "the value is not zero" and a "while" condition is "the
    value is not zero". *)
Theorem check_condition_value (ln : Z) (b : list Z) g c0 g1 v g2 :
  GetByte (set_up ln (Some b) g) = Returns c0 g1 ->
  ALU_defined_int g1 = Returns v g2 ->
  GotByte g2 = 0 ->
  (forall inv,
     check_condition (mk_condition ln inv None) g
     = ([EvCheck (mk_condition ln inv None) true], Done true g)) /\
  check_condition (mk_condition ln true (Some b)) g
  = ([EvCheck (mk_condition ln true (Some b)) (negb (bool_decide (v <> 0)))],
     Done (negb (bool_decide (v <> 0))) g2) /\
  check_condition (mk_condition ln false (Some b)) g
  = ([EvCheck (mk_condition ln false (Some b)) (bool_decide (v <> 0))],
     Done (bool_decide (v <> 0)) g2).
Proof.
  intros Hget Halu Hgot. split; [|split].
  - intros inv. apply check_condition_null.
  - rewrite (check_condition_stored (mk_condition ln true (Some b)) b g c0 g1 v g2)
      by (assumption || reflexivity).
    simpl. destruct (decide (v = 0)) as [->|Hv].
    + reflexivity.
    + rewrite (bool_decide_eq_false_2 (v = 0)) by assumption.
      rewrite (bool_decide_eq_true_2 (v <> 0)) by assumption. reflexivity.
  - apply (check_condition_stored (mk_condition ln false (Some b)) b g c0 g1 v g2);
      assumption || reflexivity.
Qed.

(** C7, as the code has it.  When a byte other than NUL is left after the
    expression of a stored condition, check_condition raises the syntax
    message as a serious error: it yields no truth value, and nothing that
    was to run after the check is run. *)
Theorem check_condition_garbage (c : loop_condition) (b : list Z) g c0 g1 v g2 :
  body c = Some b ->
  GetByte (set_up (line c) (Some b) g) = Returns c0 g1 ->
  ALU_defined_int g1 = Returns v g2 ->
  GotByte g2 <> 0 ->
  check_condition c g
  = ([EvSerious exception_syntax], Stop (Serious exception_syntax) g2) /\
  forall (B : Type) (k : bool -> M B),
    (check_condition c ≫= k) g
    = ([EvSerious exception_syntax], Stop (Serious exception_syntax) g2).
Proof.
  intros Hb Hget Halu Hgot.
  assert (Hc : check_condition c g
               = ([EvSerious exception_syntax], Stop (Serious exception_syntax) g2)).
  { unfold check_condition. rewrite Hb. steps.
    fold (set_up (line c) (Some b) g).
    rewrite (bind_call _ _ _ _ _ Hget). steps.
    rewrite (bind_call _ _ _ _ _ Halu). steps.
    destruct (decide (GotByte g2 <> 0)); [|contradiction].
    unfold Throw_serious_error. steps. reflexivity. }
  split; [exact Hc|]. intros B k. apply (bind_stop _ _ _ _ _ _ Hc).
Qed.

End ConditionProofs.

Section DoProofs.
Context {World : Type} `{E : Externals World}.
Implicit Types g : globals World.

Lemma parse_ram_block_run (ls : Z) (lb : char_ptr) g :
  parse_ram_block ls lb g
  = after [EvParse ls (src_ram lb)]
      match Parse_until_eob_or_eof (set_up ls lb g) with
      | Returns _ g' =>
          if decide (GotByte g' = CHAR_EOB) then ([], Done tt g')
          else ([], Stop (Bug "IllegalBlockTerminator" (GotByte g')) g')
      | Exits ft g' => ([], Stop ft g')
      end.
Proof.
  unfold parse_ram_block. steps. fold (set_up ls lb g).
  rewrite bind_traced_any. unfold ev_parse, set_up.
  rewrite !active_set_active. simpl. f_equal.
  destruct (Parse_until_eob_or_eof _) as [[] g'|ft g']; [|reflexivity].
  steps. destruct (decide (GotByte g' <> CHAR_EOB)), (decide (GotByte g' = CHAR_EOB));
    try contradiction; reflexivity.
Qed.

(** What a call of check_condition leaves in the trace. *)
Lemma check_condition_trace (c : loop_condition) g :
  match check_condition c g with
  | (t, Done r _) => t = [EvCheck c r]
  | (t, Stop _ _) => t = [] \/ t = [EvSerious exception_syntax]
  | (_, Fuel) => False
  end.
Proof.
  unfold check_condition. destruct (body c) as [b|].
  - steps. rewrite bind_call_any.
    destruct (GetByte _) as [c0 g1|ft g1]; [|left; reflexivity].
    steps. rewrite bind_call_any.
    destruct (ALU_defined_int g1) as [v g2|ft g2]; [|left; reflexivity].
    steps. destruct (decide (GotByte g2 <> 0)).
    + unfold Throw_serious_error. steps. right. reflexivity.
    + steps. reflexivity.
  - steps. reflexivity.
Qed.

Lemma parse_ram_block_trace (ls : Z) (lb : char_ptr) g :
  match parse_ram_block ls lb g with
  | (t, Done _ _) | (t, Stop _ _) => t = [EvParse ls (src_ram lb)]
  | (_, Fuel) => False
  end.
Proof.
  rewrite parse_ram_block_run.
  destruct (Parse_until_eob_or_eof _) as [[] g'|ft g']; [|reflexivity].
  destruct (decide _); reflexivity.
Qed.

(** One turn of the loop. *)
Lemma do_loop_turn (fuel : nat) (c1 c2 : loop_condition) (ls : Z) (lb : char_ptr) g :
  do_loop (S fuel) c1 c2 ls lb g
  = (go_on ← check_condition c1;
     if go_on : bool then
       parse_ram_block ls lb;;
       go_on ← check_condition c2;
       if go_on : bool then do_loop fuel c1 c2 ls lb else mret tt
     else mret tt) g.
Proof.
  unfold do_loop. simpl do_while. unfold mbind, M_bind, mret, M_ret, bind, ret.
  destruct (check_condition c1 g) as [t1 [[] g1|ft g1|]]; try reflexivity.
  - destruct (parse_ram_block ls lb g1) as [t2 [[] g2|ft g2|]]; try reflexivity.
    destruct (check_condition c2 g2) as [t3 [[] g3|ft g3|]]; try reflexivity.
    + simpl. rewrite app_nil_r.
      destruct (do_while fuel _ tt g3) as [t4 r4]. simpl.
      rewrite <- !app_assoc. reflexivity.
    + simpl. rewrite !app_nil_r. reflexivity.
  - simpl. rewrite !app_nil_r. reflexivity.
Qed.

Lemma check_condition_done (c : loop_condition) g t r g' :
  check_condition c g = (t, Done r g') -> t = [EvCheck c r].
Proof. intros Hc. pose proof (check_condition_trace c g) as Ht. rewrite Hc in Ht. exact Ht. Qed.

Lemma checked_run (c : loop_condition) (r : bool) g g' :
  checked c r g = Some g' <-> check_condition c g = ([EvCheck c r], Done r g').
Proof.
  unfold checked. pose proof (check_condition_trace c g) as Ht.
  destruct (check_condition c g) as [t [r' g1|ft g1|]];
    [|split; discriminate|contradiction].
  subst t. destruct (decide (r' = r)) as [->|Hne].
  - split; intros [= ->]; reflexivity.
  - split; [discriminate|]. intros [= Hr _]. contradiction.
Qed.

Lemma body_parsed_run (ls : Z) (lb : char_ptr) g g' :
  body_parsed ls lb g = Some g' <->
  parse_ram_block ls lb g = ([EvParse ls (src_ram lb)], Done tt g').
Proof.
  unfold body_parsed, parsed. rewrite parse_ram_block_run.
  destruct (Parse_until_eob_or_eof (set_up ls lb g)) as [[] g1|ft g1];
    [|split; discriminate].
  destruct (decide (GotByte g1 = CHAR_EOB)); [|split; discriminate].
  split; intros [= ->]; reflexivity.
Qed.

Lemma parse_ram_block_done (ls : Z) (lb : char_ptr) g t g' :
  parse_ram_block ls lb g = (t, Done tt g') -> body_parsed ls lb g = Some g'.
Proof.
  intros Hp. pose proof (parse_ram_block_trace ls lb g) as Ht. rewrite Hp in Ht.
  subst t. apply body_parsed_run, Hp.
Qed.

Lemma turn_inv (c1 c2 : loop_condition) (ls : Z) (lb : char_ptr) g g' :
  turn c1 c2 ls lb g = Some g' <->
  exists g1 g2,
    checked c1 true g = Some g1 /\ body_parsed ls lb g1 = Some g2 /\
    checked c2 true g2 = Some g'.
Proof.
  unfold turn. split.
  - intros Ht. destruct (checked c1 true g) as [g1|]; [|discriminate].
    simpl in Ht. destruct (body_parsed ls lb g1) as [g2|] eqn:H2; [|discriminate].
    simpl in Ht. exists g1, g2. auto.
  - intros (g1 & g2 & -> & H2 & H3). simpl. rewrite H2. exact H3.
Qed.

(** A turn that goes on. *)
Lemma do_loop_goes_on (fuel : nat) (c1 c2 : loop_condition) (ls : Z) (lb : char_ptr)
    g g' :
  turn c1 c2 ls lb g = Some g' ->
  do_loop (S fuel) c1 c2 ls lb g
  = after (rounds c1 c2 (EvParse ls (src_ram lb)) 1) (do_loop fuel c1 c2 ls lb g').
Proof.
  intros (g1 & g2 & H1 & H2 & H3)%turn_inv.
  apply checked_run in H1. apply body_parsed_run in H2. apply checked_run in H3.
  rewrite do_loop_turn.
  rewrite (bind_done _ _ _ _ _ _ H1), (bind_done _ _ _ _ _ _ H2),
    (bind_done _ _ _ _ _ _ H3).
  rewrite !after_after. reflexivity.
Qed.

Lemma rounds_S (c1 c2 : loop_condition) (b : event) (n : nat) :
  rounds c1 c2 b (S n) = rounds c1 c2 b 1 ++ rounds c1 c2 b n.
Proof. reflexivity. Qed.

(** C1.  The loop of "!do", with the globals its turns go through.  If the
    first check of the head condition gives false, the loop ends there:
    the body has not been parsed and the tail condition has not been
    checked.  The loop returns exactly when there have been some turns in
    which the head condition was checked and true, the body was parsed by
    Parse_until_eob_or_eof and the tail condition was then checked and
    true, followed by a last turn in which either the head condition was
    false (no body, no tail check) or the head condition was true, the body
    was parsed and the tail condition was then false; the globals at the
    return are those the last check left.  A loop that has not ended after
    [fuel] turns has made [fuel] turns that went on. *)
Theorem do_loop_trace (c1 c2 : loop_condition) (ls : Z) (lb : char_ptr) :
  let b := EvParse ls (src_ram lb) in
  (forall g t g1 fuel,
     check_condition c1 g = (t, Done false g1) ->
     do_loop (S fuel) c1 c2 ls lb g = ([EvCheck c1 false], Done tt g1)) /\
  (forall fuel g t g',
     do_loop fuel c1 c2 ls lb g = (t, Done tt g') <->
     exists n gn,
       (n < fuel)%nat /\
       turns c1 c2 ls lb n g = Some gn /\
       ((checked c1 false gn = Some g' /\
         t = rounds c1 c2 b n ++ [EvCheck c1 false]) \/
        (exists g1 g2,
           checked c1 true gn = Some g1 /\
           body_parsed ls lb g1 = Some g2 /\
           checked c2 false g2 = Some g' /\
           t = rounds c1 c2 b n ++ [EvCheck c1 true; b; EvCheck c2 false]))) /\
  (forall fuel g t,
     do_loop fuel c1 c2 ls lb g = (t, Fuel) <->
     t = rounds c1 c2 b fuel /\ is_Some (turns c1 c2 ls lb fuel g)).
Proof.
  intros b. split; [|split].
  - intros g t g1 fuel Hhead.
    pose proof (check_condition_done _ _ _ _ _ Hhead) as ->.
    rewrite do_loop_turn. rewrite (bind_done _ _ _ _ _ _ Hhead). reflexivity.
  - intros fuel g t g'. split.
    + revert g t. induction fuel as [|fuel IH]; intros g t Hrun; [discriminate|].
      rewrite do_loop_turn in Hrun.
      apply bind_done_inv in Hrun as (t1 & r1 & g1 & t2 & H1 & Hrest & ->).
      pose proof (check_condition_done _ _ _ _ _ H1) as ->.
      destruct r1.
      * apply bind_done_inv in Hrest as (t3 & [] & g2 & t4 & H2 & Hrest & ->).
        apply parse_ram_block_done in H2 as H2'.
        apply body_parsed_run in H2' as H2''. rewrite H2 in H2''.
        injection H2'' as ->. clear H2.
        apply bind_done_inv in Hrest as (t5 & r2 & g3 & t6 & H3 & Hrest & ->).
        pose proof (check_condition_done _ _ _ _ _ H3) as ->.
        apply checked_run in H1. apply checked_run in H3.
        destruct r2.
        -- apply IH in Hrest as (n & gn & Hn & Hturns & Hlast).
           exists (S n), gn. split; [lia|]. split.
           { simpl. replace (turn c1 c2 ls lb g) with (Some g3); [exact Hturns|].
             symmetry. apply turn_inv. exists g1, g2. auto. }
           rewrite rounds_S.
           destruct Hlast as [(Hc & ->)|(g4 & g5 & Hc1 & Hp & Hc2 & ->)].
           ++ left. split; [exact Hc|]. rewrite <- !app_assoc. reflexivity.
           ++ right. exists g4, g5. repeat split; assumption.
        -- injection Hrest as <- <-.
           exists O, g. split; [lia|]. split; [reflexivity|].
           right. exists g1, g2. repeat split; assumption.
      * injection Hrest as <- <-.
        exists O, g. split; [lia|]. split; [reflexivity|].
        left. split; [apply checked_run; exact H1|reflexivity].
    + intros (n & gn & Hn & Hturns & Hlast).
      revert fuel g t Hn Hturns Hlast.
      induction n as [|n IH]; intros fuel g t Hn Hturns Hlast;
        (destruct fuel as [|fuel]; [lia|]).
      * injection Hturns as <-.
        rewrite do_loop_turn.
        destruct Hlast as [(Hc & ->)|(g1 & g2 & Hc1 & Hp & Hc2 & ->)].
        -- apply checked_run in Hc. rewrite (bind_done _ _ _ _ _ _ Hc).
           rewrite after_ret. reflexivity.
        -- apply checked_run in Hc1. apply body_parsed_run in Hp.
           apply checked_run in Hc2.
           rewrite (bind_done _ _ _ _ _ _ Hc1), (bind_done _ _ _ _ _ _ Hp),
             (bind_done _ _ _ _ _ _ Hc2).
           rewrite !after_after, after_ret. reflexivity.
      * simpl in Hturns.
        destruct (turn c1 c2 ls lb g) as [g3|] eqn:Hturn; [|discriminate].
        simpl in Hturns.
        rewrite (do_loop_goes_on _ _ _ _ _ _ _ Hturn).
        assert (Hrest : exists t', do_loop fuel c1 c2 ls lb g3 = (t', Done tt g') /\
                                   t = rounds c1 c2 b 1 ++ t').
        { destruct Hlast as [(Hc & ->)|(g1 & g2 & Hc1 & Hp & Hc2 & ->)].
          - eexists. split.
            + apply (IH fuel g3 _ ltac:(lia) Hturns). left. split; [exact Hc|reflexivity].
            + rewrite rounds_S, <- !app_assoc. reflexivity.
          - eexists. split.
            + apply (IH fuel g3 _ ltac:(lia) Hturns). right. exists g1, g2.
              repeat split; try assumption; reflexivity.
            + rewrite rounds_S, <- !app_assoc. reflexivity. }
        destruct Hrest as (t' & -> & ->). reflexivity.
  - intros fuel. induction fuel as [|fuel IH]; intros g t.
    + split.
      * intros [= <-]. split; [reflexivity|]. exists g. reflexivity.
      * intros [-> _]. reflexivity.
    + split.
      * intros Hrun. rewrite do_loop_turn in Hrun.
        apply bind_fuel_inv in Hrun as [Hf|(t1 & r1 & g1 & t2 & H1 & Hrest & ->)].
        { pose proof (check_condition_trace c1 g) as Ht. rewrite Hf in Ht. contradiction. }
        pose proof (check_condition_done _ _ _ _ _ H1) as ->.
        destruct r1; [|discriminate].
        apply bind_fuel_inv in Hrest as [Hf|(t3 & [] & g2 & t4 & H2 & Hrest & ->)].
        { pose proof (parse_ram_block_trace ls lb g1) as Ht. rewrite Hf in Ht.
          contradiction. }
        apply parse_ram_block_done in H2 as H2'.
        apply body_parsed_run in H2' as H2''. rewrite H2 in H2''.
        injection H2'' as ->. clear H2.
        apply bind_fuel_inv in Hrest as [Hf|(t5 & r2 & g3 & t6 & H3 & Hrest & ->)].
        { pose proof (check_condition_trace c2 g2) as Ht. rewrite Hf in Ht. contradiction. }
        pose proof (check_condition_done _ _ _ _ _ H3) as ->.
        destruct r2; [|discriminate].
        apply checked_run in H1. apply checked_run in H3.
        apply IH in Hrest as [-> Hsome].
        assert (Hturn : turn c1 c2 ls lb g = Some g3)
          by (apply turn_inv; exists g1, g2; auto).
        split.
        -- rewrite rounds_S. reflexivity.
        -- simpl. rewrite Hturn. exact Hsome.
      * intros [-> Hsome]. simpl in Hsome.
        destruct (turn c1 c2 ls lb g) as [g3|] eqn:Hturn;
          [|destruct Hsome as [x Hx]; discriminate].
        simpl in Hsome.
        rewrite (do_loop_goes_on _ _ _ _ _ _ _ Hturn).
        assert (Hrest : do_loop fuel c1 c2 ls lb g3 = (rounds c1 c2 b fuel, Fuel))
          by (apply IH; auto).
        rewrite Hrest, rounds_S. reflexivity.
Qed.

End DoProofs.

(** ** Counting *)

Example counter_values_up : counter_values 2 5 = [2; 3; 4; 5].
Proof. reflexivity. Qed.

Example counter_values_down : counter_values 5 2 = [5; 4; 3; 2].
Proof. reflexivity. Qed.

Lemma count_length (k inc : Z) (m : nat) : length (count k inc m) = m.
Proof. revert k. induction m as [|m IH]; intros k; simpl; [|rewrite IH]; reflexivity. Qed.

Lemma count_lookup (k inc : Z) (m i : nat) :
  (i < m)%nat -> count k inc m !! i = Some (k + inc * Z.of_nat i).
Proof.
  revert k i. induction m as [|m IH]; intros k i Hi; [lia|].
  destruct i as [|i]; simpl.
  - f_equal. lia.
  - rewrite IH by lia. f_equal. lia.
Qed.

Lemma counter_values_length (first last : Z) :
  Z.of_nat (length (counter_values first last)) = Z.abs (last - first) + 1.
Proof. unfold counter_values. rewrite count_length. lia. Qed.

Lemma counter_values_first (first last : Z) :
  head (counter_values first last) = Some first.
Proof. reflexivity. Qed.

Lemma counter_values_last (first last : Z) :
  list.last (counter_values first last) = Some last.
Proof.
  rewrite last_lookup. unfold counter_values. rewrite count_length. simpl pred.
  rewrite count_lookup by lia. f_equal. destruct (decide (last < first)); lia.
Qed.

Lemma swrap_eq_inv (w : positive) (x y d : Z) :
  in_range w x -> in_range w y -> swrap w (x + d) = swrap w (y + d) -> x = y.
Proof.
  unfold in_range, swrap. intros Hx Hy Heq. pose proof (half_pos w) as Hh.
  assert (Hm : (x + d + half w) mod (2 * half w) = (y + d + half w) mod (2 * half w))
    by lia.
  pose proof (Z.div_mod (x + d + half w) (2 * half w)) as Ha.
  pose proof (Z.div_mod (y + d + half w) (2 * half w)) as Hb.
  assert (Hq : (x + d + half w) / (2 * half w) = (y + d + half w) / (2 * half w)) by nia.
  rewrite Hm, Hq in Ha. lia.
Qed.

Section ForLoops.
Context {World : Type} `{E : Externals World}.
Implicit Types g : globals World.

Variable a : for_args.
Variable ls : Z.
Variable lb : char_ptr.

Lemma written_run (p : addr) (r : result) g g' :
  written p r g = Some g' <-> symbol_set_value p r true g = Returns tt g'.
Proof.
  unfold written. destruct (symbol_set_value p r true g) as [[] g1|ft g1].
  - split; intros [= ->]; reflexivity.
  - split; discriminate.
Qed.

Lemma pass_calls_inv (p : addr) (fl v : Z) g g' :
  pass_calls p ls lb fl v g = Some g' <->
  exists g1, written p (mk_result fl v) g = Some g1 /\ body_parsed ls lb g1 = Some g'.
Proof.
  unfold pass_calls. split.
  - intros Hp. destruct (written p (mk_result fl v) g) as [g1|]; [|discriminate].
    exists g1. auto.
  - intros (g1 & -> & Hb). exact Hb.
Qed.

Lemma passes_calls_cons (p : addr) (fl v : Z) (vs : list Z) g g' :
  passes_calls p ls lb fl (v :: vs) g = Some g' <->
  exists g1 g2,
    written p (mk_result fl v) g = Some g1 /\ body_parsed ls lb g1 = Some g2 /\
    passes_calls p ls lb fl vs g2 = Some g'.
Proof.
  simpl. split.
  - intros Hp. destruct (pass_calls p ls lb fl v g) as [g2|] eqn:H1; [|discriminate].
    apply pass_calls_inv in H1 as (g1 & Hw & Hb). exists g1, g2. auto.
  - intros (g1 & g2 & Hw & Hb & Hrest).
    replace (pass_calls p ls lb fl v g) with (Some g2); [exact Hrest|].
    symmetry. apply pass_calls_inv. exists g1. auto.
Qed.

(** The loop of the new syntax, entered with the counter at [k], which has
    been written to the symbol. *)
Lemma new_loop_calls (fl : Z) (n : nat) :
  forall (fuel : nat) (k : Z) g g1 g9 g10,
    old_algo a = false ->
    counter_increment a = 1 \/ counter_increment a = -1 ->
    (n < fuel)%nat ->
    in_range intval_bits k -> in_range intval_bits (counter_last a) ->
    counter_last a = k + counter_increment a * Z.of_nat n ->
    body_parsed ls lb g = Some g1 ->
    passes_calls (for_symbol a) ls lb fl
      (count (k + counter_increment a) (counter_increment a) n) g1 = Some g9 ->
    written (for_symbol a)
      (mk_result fl (swrap intval_bits (counter_last a + counter_increment a))) g9
    = Some g10 ->
    for_loops fuel a ls lb (mk_result fl k) g
    = (EvParse ls (src_ram lb)
         :: flat_map (pass (for_symbol a) ls lb fl)
              (count (k + counter_increment a) (counter_increment a) n)
         ++ [EvSetValue (for_symbol a)
               (mk_result fl (swrap intval_bits (counter_last a + counter_increment a)))
               true],
       Done tt g10).
Proof.
  unfold for_loops.
  induction n as [|n IH]; intros fuel k g g1 g9 g10 Hnew Hinc Hfuel Hk Hlast Hn Hp Hrest Hw;
    rewrite Hnew in *; (destruct fuel as [|fuel]; [lia|]);
    apply body_parsed_run in Hp.
  - assert (k = counter_last a) as -> by lia.
    injection Hrest as <-. apply written_run in Hw.
    simpl do_while. steps. rewrite (bind_done _ _ _ _ _ _ Hp). steps.
    unfold with_intval. simpl flags. simpl intval.
    rewrite (bind_traced _ _ _ _ _ _ Hw). steps.
    rewrite bool_decide_eq_false_2 by (intros Hne; apply Hne; reflexivity).
    steps. rewrite after_ret. reflexivity.
  - assert (Hstep : in_range intval_bits (k + counter_increment a)).
    { unfold in_range in *. destruct Hinc as [Hi|Hi]; rewrite Hi in *; lia. }
    change (count (k + counter_increment a) (counter_increment a) (S n))
      with ((k + counter_increment a)
              :: count (k + counter_increment a + counter_increment a)
                   (counter_increment a) n) in *.
    apply passes_calls_cons in Hrest as (g2 & g3 & Hs & Hp' & Hrest).
    apply written_run in Hs.
    specialize (IH fuel (k + counter_increment a) g2 g3 g9 g10 eq_refl Hinc
                  ltac:(lia) Hstep Hlast ltac:(lia) Hp' Hrest Hw).
    simpl do_while. steps. rewrite (bind_done _ _ _ _ _ _ Hp). steps.
    unfold with_intval. simpl flags. simpl intval.
    rewrite (swrap_in_range _ _ Hstep).
    rewrite (bind_traced _ _ _ _ _ _ Hs). steps.
    rewrite bool_decide_eq_true_2.
    + steps. apply bind_ret_inv in IH as (r & Hrun).
      rewrite (bind_done _ _ _ _ _ _ Hrun). steps.
      rewrite !after_after, after_ret. reflexivity.
    + intros Heq. rewrite <- (swrap_in_range _ _ Hstep) in Heq.
      apply swrap_eq_inv in Heq; try assumption.
      destruct Hinc as [Hi|Hi]; rewrite Hi in *; lia.
Qed.

(** The loop of the old syntax, entered with the counter at [k]. *)
Lemma old_loop_calls (fl : Z) (n : nat) :
  forall (fuel : nat) (k : Z) g g',
    old_algo a = true ->
    counter_increment a = 1 ->
    (n < fuel)%nat ->
    0 <= k -> in_range intval_bits (counter_last a) ->
    counter_last a = k + 1 + Z.of_nat n ->
    passes_calls (for_symbol a) ls lb fl (count (k + 1) 1 (S n)) g = Some g' ->
    for_loops fuel a ls lb (mk_result fl k) g
    = (flat_map (pass (for_symbol a) ls lb fl) (count (k + 1) 1 (S n)), Done tt g').
Proof.
  unfold for_loops.
  induction n as [|n IH]; intros fuel k g g' Hold Hinc Hfuel Hk Hlast Hn Hcalls;
    rewrite Hold, Hinc in *; (destruct fuel as [|fuel]; [lia|]);
    (destruct (decide (counter_last a <> 0)); [|lia]);
    (assert (Hstep : in_range intval_bits (k + 1))
      by (unfold in_range in *; pose proof (half_pos intval_bits); lia));
    change (count (k + 1) 1 (S ?m)) with ((k + 1) :: count (k + 1 + 1) 1 m) in *;
    apply passes_calls_cons in Hcalls as (g1 & g2 & Hs & Hp & Hrest);
    apply written_run in Hs; apply body_parsed_run in Hp.
  - injection Hrest as <-. simpl do_while. steps.
    unfold with_intval. simpl flags. simpl intval.
    rewrite (swrap_in_range _ _ Hstep).
    rewrite (bind_traced _ _ _ _ _ _ Hs). steps.
    rewrite (bind_done _ _ _ _ _ _ Hp). steps.
    rewrite bool_decide_eq_false_2 by lia. steps.
    rewrite !after_after, after_ret. reflexivity.
  - specialize (IH fuel (k + 1) g2 g' eq_refl eq_refl ltac:(lia) ltac:(lia) Hlast
                  ltac:(lia) Hrest).
    destruct (decide (counter_last a <> 0)); [|lia].
    simpl do_while. steps.
    unfold with_intval. simpl flags. simpl intval.
    rewrite (swrap_in_range _ _ Hstep).
    rewrite (bind_traced _ _ _ _ _ _ Hs). steps.
    rewrite (bind_done _ _ _ _ _ _ Hp). steps.
    rewrite bool_decide_eq_true_2 by lia. steps.
    apply bind_ret_inv in IH as (r & Hw).
    rewrite (bind_done _ _ _ _ _ _ Hw). steps.
    rewrite !after_after, after_ret. reflexivity.
Qed.

End ForLoops.

Section ForRun.
Context {World : Type} `{E : Externals World}.
Implicit Types g : globals World.

(** PO_for from the left brace on, call by call. *)
Lemma for_run_steps (fuel : nat) (a : for_args) g lb g2 g3 t g4 c g5 :
  GotByte g = CHAR_SOB ->
  Input_skip_or_store_block true g = Returns lb g2 ->
  symbol_set_value (for_symbol a) (mk_result counter_flags (counter_first a)) true
    (switched g2) = Returns tt g3 ->
  for_loops fuel a (line_number (active g)) lb
    (mk_result counter_flags (counter_first a)) g3 = (t, Done tt g4) ->
  GetByte (set_Input_now (Input_now g2) g4) = Returns c g5 ->
  for_run fuel a g
  = (EvBlock true
       :: EvSetValue (for_symbol a) (mk_result counter_flags (counter_first a)) true
       :: t,
     Done ENSURE_EOS (set_inputs (delete (top g2) (inputs g5)) g5)).
Proof.
  intros Hsob Hblock Hset Hloops Hget. unfold for_run. steps.
  destruct (decide (GotByte g <> CHAR_SOB)); [contradiction|]. steps.
  rewrite (bind_traced _ _ _ _ _ _ Hblock). steps.
  fold (switched g2). fold counter_flags.
  rewrite (bind_traced _ _ _ _ _ _ Hset).
  rewrite (bind_done _ _ _ _ _ _ Hloops). steps.
  change (Input_now (push (with_source_is_ram true (active g2)) g2)) with (Input_now g2).
  rewrite (bind_call _ _ _ _ _ Hget). unfold leave. steps.
  rewrite !after_after, after_ret. reflexivity.
Qed.

(** The first two events of PO_for from the left brace on, whatever
    happens afterwards. *)
Lemma for_run_begins (fuel : nat) (a : for_args) g lb g2 :
  GotByte g = CHAR_SOB ->
  Input_skip_or_store_block true g = Returns lb g2 ->
  exists t r,
    for_run fuel a g
    = (EvBlock true
         :: EvSetValue (for_symbol a) (mk_result counter_flags (counter_first a)) true
         :: t, r).
Proof.
  intros Hsob Hblock. unfold for_run. steps.
  destruct (decide (GotByte g <> CHAR_SOB)); [contradiction|]. steps.
  rewrite (bind_traced _ _ _ _ _ _ Hblock). steps.
  fold (switched g2). fold counter_flags.
  rewrite bind_traced_any.
  match goal with |- context [after _ (after _ ?p)] => destruct p as [t r] end.
  exists t, r. reflexivity.
Qed.

End ForRun.

Section ForHeader.
Context {World : Type} `{E : Externals World}.
Implicit Types g : globals World.

(** "!for" has read a symbol name, a comma and a first value, and has
    looked for a second comma. *)
Variables (g0 : globals World) (len zone : Z) (g1 : globals World)
  (force_bit : Z) (g2 : globals World) (sym : addr) (g3 : globals World)
  (comma : Z) (g4 : globals World) (first_arg : Z) (g5 : globals World)
  (comma' : Z) (g6 : globals World).
Hypothesis Hname : Input_read_zone_and_keyword g0 = Returns (len, zone) g1.
Hypothesis Hlen : len <> 0.
Hypothesis Hforce : Input_get_force_bit g1 = Returns force_bit g2.
Hypothesis Hfind : symbol_find zone force_bit g2 = Returns sym g3.
Hypothesis Hcomma : Input_accept_comma g3 = Returns comma g4.
Hypothesis Hcomma_found : comma <> 0.
Hypothesis Hfirst : ALU_defined_int g4 = Returns first_arg g5.
Hypothesis Hcomma' : Input_accept_comma g5 = Returns comma' g6.

Lemma for_read_args_first (B : Type) (k : option for_args -> M B) :
  (for_read_args ≫= k) g0
  = ((if decide (comma' <> 0) then
        (* new format - yay! *)
        warn ← gets warn_on_old_for;
        (if negb warn
         then Throw_first_pass_warning found_new_for_syntax
         else mret tt);;
        counter_last ← call ALU_defined_int;
        mret (Some (mk_for_args sym false first_arg counter_last
                      (if decide (counter_last < first_arg) then -1 else 1)))
      else
        warn ← gets warn_on_old_for;
        (if warn : bool
         then Throw_first_pass_warning found_old_for_syntax
         else mret tt);;
        (if decide (first_arg < 0)
         then Throw_serious_error loop_count_is_negative
         else mret tt);;
        mret (Some (mk_for_args sym true 0 first_arg 1))) ≫= k) g6.
Proof.
  unfold for_read_args. rewrite bind_assoc.
  rewrite (bind_call _ _ _ _ _ Hname). cbv beta iota.
  destruct (decide (len = 0)); [contradiction|].
  rewrite bind_assoc. rewrite (bind_call _ _ _ _ _ Hforce).
  rewrite bind_assoc. rewrite (bind_call _ _ _ _ _ Hfind).
  rewrite bind_assoc. rewrite (bind_call _ _ _ _ _ Hcomma).
  destruct (decide (comma = 0)); [contradiction|].
  rewrite bind_assoc. rewrite (bind_call _ _ _ _ _ Hfirst).
  rewrite bind_assoc. rewrite (bind_call _ _ _ _ _ Hcomma').
  reflexivity.
Qed.

(** The old syntax: no second comma. *)
Lemma PO_for_old_header (fuel : nat) :
  comma' = 0 ->
  PO_for fuel g0
  = after (warn_old g6)
      (if decide (first_arg < 0)
       then ([EvSerious loop_count_is_negative], Stop (Serious loop_count_is_negative) g6)
       else for_run fuel (mk_for_args sym true 0 first_arg 1) g6).
Proof.
  intros Hc. unfold PO_for. rewrite for_read_args_first.
  destruct (decide (comma' <> 0)); [contradiction|]. steps.
  unfold warn_old. destruct (warn_on_old_for g6).
  - unfold Throw_first_pass_warning. steps.
    destruct (decide (first_arg < 0)).
    + unfold Throw_serious_error. steps. reflexivity.
    + steps. reflexivity.
  - steps. rewrite after_nil.
    destruct (decide (first_arg < 0)).
    + unfold Throw_serious_error. steps. reflexivity.
    + steps. reflexivity.
Qed.

(** The new syntax: a second comma and a second value. *)
Lemma PO_for_new_header (fuel : nat) (last : Z) (g7 : globals World) :
  comma' <> 0 ->
  ALU_defined_int g6 = Returns last g7 ->
  PO_for fuel g0
  = after (warn_new g6)
      (for_run fuel
         (mk_for_args sym false first_arg last (if decide (last < first_arg) then -1 else 1))
         g7).
Proof.
  intros Hc Hlast. unfold PO_for. rewrite for_read_args_first.
  destruct (decide (comma' <> 0)); [|contradiction]. steps.
  unfold warn_new. destruct (warn_on_old_for g6); simpl negb; cbv iota.
  - steps. rewrite (bind_call _ _ _ _ _ Hlast). steps. rewrite after_nil. reflexivity.
  - unfold Throw_first_pass_warning. steps.
    rewrite (bind_call _ _ _ _ _ Hlast). steps. reflexivity.
Qed.

Lemma for_read_args_new (last : Z) (g7 : globals World) :
  comma' <> 0 ->
  ALU_defined_int g6 = Returns last g7 ->
  for_read_args g0
  = (warn_new g6,
     Done (Some (mk_for_args sym false first_arg last
                   (if decide (last < first_arg) then -1 else 1))) g7).
Proof.
  intros Hc Hlast. rewrite <- bind_mret_r, for_read_args_first.
  destruct (decide (comma' <> 0)); [|contradiction]. rewrite bind_mret_r. steps.
  unfold warn_new. destruct (warn_on_old_for g6); simpl negb; cbv iota.
  - steps. rewrite (bind_call _ _ _ _ _ Hlast). reflexivity.
  - unfold Throw_first_pass_warning. steps.
    rewrite (bind_call _ _ _ _ _ Hlast). reflexivity.
Qed.

(** C2.  "!for VAR, START, END { body }", the new syntax.  The increment
    is -1 if END < START and 1 otherwise.  For each of the
    [|END - START| + 1] values from START to END, in ascending order when
    START <= END and in descending order otherwise, symbol_set_value writes
    the value to the symbol and then Parse_until_eob_or_eof parses the
    body; so the body is parsed at least once.  After the last pass the
    symbol is given the value that follows END.  The handler then fetches a
    byte from the input that was active before and returns ENSURE_EOS, with
    the globals these calls have led to. *)
Theorem PO_for_new_syntax (END : Z) (g7 : globals World) (lb : char_ptr)
    (g8 g9 g10 : globals World) (c : Z) (g11 : globals World) (fuel : nat) :
  comma' <> 0 ->
  ALU_defined_int g6 = Returns END g7 ->
  in_range intval_bits first_arg ->
  in_range intval_bits END ->
  GotByte g7 = CHAR_SOB ->
  Input_skip_or_store_block true g7 = Returns lb g8 ->
  let START := first_arg in
  let inc := if decide (END < START) then -1 else 1 in
  let ls := line_number (active g7) in
  passes_calls sym ls lb counter_flags (counter_values START END) (switched g8) = Some g9 ->
  written sym (mk_result counter_flags (swrap intval_bits (END + inc))) g9 = Some g10 ->
  GetByte (set_Input_now (Input_now g8) g10) = Returns c g11 ->
  Z.abs (END - START) < Z.of_nat fuel ->
  for_read_args g0
  = (warn_new g6, Done (Some (mk_for_args sym false START END inc)) g7) /\
  PO_for fuel g0
  = (warn_new g6
       ++ EvBlock true
       :: flat_map (pass sym ls lb counter_flags) (counter_values START END)
       ++ [EvSetValue sym (mk_result counter_flags (swrap intval_bits (END + inc))) true],
     Done ENSURE_EOS (set_inputs (delete (top g8) (inputs g11)) g11)) /\
  head (counter_values START END) = Some START /\
  list.last (counter_values START END) = Some END /\
  Z.of_nat (length (counter_values START END)) = Z.abs (END - START) + 1.
Proof.
  intros Hc Hlast Hstart Hend Hsob Hblock START inc ls Hcalls Hfinal Hget Hfuel.
  split; [apply for_read_args_new; assumption|].
  split; [|split; [apply counter_values_first|split;
    [apply counter_values_last|apply counter_values_length]]].
  set (a := mk_for_args sym false START END inc).
  unfold counter_values in *. fold inc in Hcalls. fold inc.
  change (count START inc (S ?n)) with (START :: count (START + inc) inc n) in *.
  apply (passes_calls_cons ls lb) in Hcalls as (g8' & g8'' & Hs & Hp & Hrest).
  apply written_run in Hs.
  pose proof (new_loop_calls a ls lb counter_flags
                (Z.to_nat (Z.abs (END - START))) fuel START g8' g8'' g9 g10) as Hrun.
  cbn [for_symbol counter_first counter_last counter_increment old_algo a] in Hrun.
  specialize (Hrun eq_refl).
  rewrite (PO_for_new_header fuel END g7 Hc Hlast).
  fold START. fold inc. fold a.
  rewrite (for_run_steps fuel a g7 lb g8 g8' _ g10 c g11 Hsob Hblock Hs
             (Hrun ltac:(unfold inc; destruct (decide (END < START)); [right|left];
                         reflexivity)
                   ltac:(lia) Hstart Hend
                   ltac:(unfold inc; destruct (decide (END < START)); lia)
                   Hp Hrest Hfinal)
             Hget).
  rewrite after_pair. reflexivity.
Qed.

Lemma old_values_length (END : Z) :
  0 <= END -> Z.of_nat (length (count 1 1 (Z.to_nat END))) = END.
Proof. intros HEND. rewrite count_length. lia. Qed.

(** C3.  "!for VAR, END { body }", the old syntax.  A negative END is a
    serious error: the handler stops there.  Otherwise symbol_set_value
    writes 0 to the symbol, and for each of the END values 1, 2, ..., END
    in this order symbol_set_value writes the value to the symbol and then
    Parse_until_eob_or_eof parses the body; for END = 0 there is no value
    and the body is not parsed.  The handler then fetches a byte from the
    input that was active before and returns ENSURE_EOS, with the globals
    these calls have led to. *)
Theorem PO_for_old_syntax :
  comma' = 0 ->
  let END := first_arg in
  (END < 0 ->
   forall fuel,
     PO_for fuel g0
     = (warn_old g6 ++ [EvSerious loop_count_is_negative],
        Stop (Serious loop_count_is_negative) g6)) /\
  (0 <= END ->
   forall (lb : char_ptr) (g8 g9 g10 : globals World) (c : Z) (g11 : globals World)
          (fuel : nat),
     in_range intval_bits END ->
     GotByte g6 = CHAR_SOB ->
     Input_skip_or_store_block true g6 = Returns lb g8 ->
     let ls := line_number (active g6) in
     written sym (mk_result counter_flags 0) (switched g8) = Some g9 ->
     passes_calls sym ls lb counter_flags (count 1 1 (Z.to_nat END)) g9 = Some g10 ->
     GetByte (set_Input_now (Input_now g8) g10) = Returns c g11 ->
     END <= Z.of_nat fuel ->
     PO_for fuel g0
     = (warn_old g6
          ++ EvBlock true
          :: EvSetValue sym (mk_result counter_flags 0) true
          :: flat_map (pass sym ls lb counter_flags) (count 1 1 (Z.to_nat END)),
        Done ENSURE_EOS (set_inputs (delete (top g8) (inputs g11)) g11)) /\
     Z.of_nat (length (count 1 1 (Z.to_nat END))) = END /\
     (forall i : nat,
        Z.of_nat i < END ->
        count 1 1 (Z.to_nat END) !! i = Some (1 + Z.of_nat i))).
Proof.
  intros Hc END. split.
  - intros Hneg fuel. rewrite (PO_for_old_header fuel Hc).
    destruct (decide (first_arg < 0)); [reflexivity|contradiction].
  - intros Hpos lb g8 g9 g10 c g11 fuel Hend Hsob Hblock ls Hs Hcalls Hget Hfuel.
    split; [|split; [apply old_values_length; assumption|]].
    + set (a := mk_for_args sym true 0 END 1).
      apply written_run in Hs.
      assert (Hrun : for_loops fuel a ls lb (mk_result counter_flags 0) g9
                     = (flat_map (pass sym ls lb counter_flags)
                          (count 1 1 (Z.to_nat END)), Done tt g10)).
      { destruct (decide (END = 0)) as [Hz|Hnz].
        - unfold for_loops, a. cbn [old_algo counter_last].
          destruct (decide (END <> 0)); [contradiction|].
          rewrite Hz in *. injection Hcalls as <-. reflexivity.
        - replace (Z.to_nat END) with (S (Z.to_nat (END - 1))) in * by lia.
          apply (old_loop_calls a ls lb counter_flags (Z.to_nat (END - 1)) fuel 0 g9 g10);
            try reflexivity; try assumption; simpl; lia. }
      rewrite (PO_for_old_header fuel Hc).
      destruct (decide (first_arg < 0)); [unfold END in Hpos; lia|].
      fold END. fold a.
      rewrite (for_run_steps fuel a g6 lb g8 g9 _ g10 c g11 Hsob Hblock Hs Hrun Hget).
      rewrite after_pair. reflexivity.
    + intros i Hi. rewrite count_lookup by lia. f_equal. lia.
Qed.

(** C9.  When "!for" has read its arguments and sees the left brace, it
    captures the body and then, before anything of the loop runs, writes
    the first value of the counter to the symbol, with the flags
    MVALUE_DEFINED and MVALUE_EXISTS: 0 in the old syntax, START in the new
    syntax.  With the old syntax and END = 0 this is the only thing the
    loop does: the body is not parsed, and a symbol that keeps what is
    written to it is left defined, with the value 0. *)
Theorem PO_for_initial_value :
  (* the old syntax *)
  (comma' = 0 -> 0 <= first_arg ->
   forall lb g8 fuel,
     GotByte g6 = CHAR_SOB ->
     Input_skip_or_store_block true g6 = Returns lb g8 ->
     exists t r,
       PO_for fuel g0
       = (warn_old g6
            ++ EvBlock true :: EvSetValue sym (mk_result counter_flags 0) true :: t, r)) /\
  (* the new syntax *)
  (comma' <> 0 ->
   forall END g7 lb g8 fuel,
     ALU_defined_int g6 = Returns END g7 ->
     GotByte g7 = CHAR_SOB ->
     Input_skip_or_store_block true g7 = Returns lb g8 ->
     exists t r,
       PO_for fuel g0
       = (warn_new g6
            ++ EvBlock true :: EvSetValue sym (mk_result counter_flags first_arg) true :: t,
          r)) /\
  (* the old syntax with END = 0 *)
  (comma' = 0 -> first_arg = 0 ->
   forall lb g8 g9 c g10 fuel,
     GotByte g6 = CHAR_SOB ->
     Input_skip_or_store_block true g6 = Returns lb g8 ->
     symbol_set_value sym (mk_result counter_flags 0) true (switched g8) = Returns tt g9 ->
     intval (sym_result (symbol_at sym g9)) = 0 ->
     Z.land (flags (sym_result (symbol_at sym g9))) counter_flags = counter_flags ->
     GetByte (set_Input_now (Input_now g8) g9) = Returns c g10 ->
     symbols g10 = symbols g9 ->
     exists g',
       PO_for fuel g0
       = (warn_old g6 ++ [EvBlock true; EvSetValue sym (mk_result counter_flags 0) true],
          Done ENSURE_EOS g') /\
       intval (sym_result (symbol_at sym g')) = 0 /\
       Z.land (flags (sym_result (symbol_at sym g'))) MVALUE_DEFINED = MVALUE_DEFINED /\
       Z.land (flags (sym_result (symbol_at sym g'))) MVALUE_EXISTS = MVALUE_EXISTS).
Proof.
  split; [|split].
  - intros Hc Hpos lb g8 fuel Hsob Hblock.
    destruct (for_run_begins fuel (mk_for_args sym true 0 first_arg 1) g6 lb g8 Hsob Hblock)
      as (t & r & Hrun).
    exists t, r. rewrite (PO_for_old_header fuel Hc).
    destruct (decide (first_arg < 0)); [lia|]. rewrite Hrun. reflexivity.
  - intros Hc END g7 lb g8 fuel Hlast Hsob Hblock.
    destruct (for_run_begins fuel
                (mk_for_args sym false first_arg END
                   (if decide (END < first_arg) then -1 else 1)) g7 lb g8 Hsob Hblock)
      as (t & r & Hrun).
    exists t, r. rewrite (PO_for_new_header fuel END g7 Hc Hlast), Hrun. reflexivity.
  - intros Hc Hz lb g8 g9 c g10 fuel Hsob Hblock Hs Hval Hfl Hg Hframe.
    eexists. split; [|].
    + rewrite (PO_for_old_header fuel Hc).
      destruct (decide (first_arg < 0)); [lia|]. rewrite Hz.
      rewrite (for_run_steps fuel (mk_for_args sym true 0 0 1) g6 lb g8 g9 [] g9 c g10
                 Hsob Hblock Hs eq_refl Hg).
      reflexivity.
    + unfold symbol_at in *. simpl symbols. rewrite Hframe.
      destruct (flags_kept _ _ _ Hfl) as [Hd He]. auto.
Qed.

End ForHeader.

Section IfdefProofs.
Context {World : Type} `{E : Externals World}.
Implicit Types g : globals World.

Lemma count_usage_flags (p : addr) g :
  flags (sym_result (symbol_at p (count_usage p g))) = flags (sym_result (symbol_at p g)).
Proof.
  unfold count_usage, symbol_at. simpl. rewrite lookup_insert_eq. reflexivity.
Qed.

(** C6.  "!ifdef" and "!ifndef" with no left brace after the symbol name.
    The symbol counts as defined when it was found and its flags have
    MVALUE_DEFINED; "!ifndef" takes the negation.  If the result is true the
    handler returns PARSE_REMAINDER, so the rest of the statement is parsed,
    otherwise SKIP_REMAINDER, so the rest is skipped. *)
Theorem ifdef_ifndef_remainder g len zone g1 node g2 g3 :
  Input_read_zone_and_keyword g = Returns (len, zone) g1 ->
  len <> 0 ->
  Tree_hard_scan zone false g1 = Returns node g2 ->
  SKIPSPACE (counted node g2) = Returns tt g3 ->
  GotByte g3 <> CHAR_SOB ->
  PO_ifdef g
  = ([], Done (if is_defined node g2 then PARSE_REMAINDER else SKIP_REMAINDER) g3) /\
  PO_ifndef g
  = ([], Done (if negb (is_defined node g2) then PARSE_REMAINDER else SKIP_REMAINDER) g3).
Proof.
  intros Hname Hlen Hscan Hskip Hsob.
  assert (Hboth : forall inv,
            ifdef_ifndef inv g
            = ([], Done (if (if inv then negb (is_defined node g2) else is_defined node g2)
                         then PARSE_REMAINDER else SKIP_REMAINDER) g3)).
  { intros inv. unfold ifdef_ifndef.
    rewrite (bind_call _ _ _ _ _ Hname). cbv beta iota.
    destruct (decide (len = 0)); [contradiction|].
    rewrite (bind_call _ _ _ _ _ Hscan).
    destruct node as [p|]; simpl counted in Hskip; simpl is_defined.
    - steps. destruct (decide (pass_count g2 = 0)); steps.
      + rewrite count_usage_flags. rewrite (bind_call _ _ _ _ _ Hskip). steps.
        destruct (decide (GotByte g3 <> CHAR_SOB)); [reflexivity|contradiction].
      + rewrite (bind_call _ _ _ _ _ Hskip). steps.
        destruct (decide (GotByte g3 <> CHAR_SOB)); [reflexivity|contradiction].
    - steps. rewrite (bind_call _ _ _ _ _ Hskip). steps.
      destruct (decide (GotByte g3 <> CHAR_SOB)); [reflexivity|contradiction]. }
  split; [apply (Hboth false)|apply (Hboth true)].
Qed.

End IfdefProofs.

Section IfProofs.
Context {World : Type} `{E : Externals World}.
Implicit Types g : globals World.

Lemma block_events_app (t t' : list event) :
  block_events (t ++ t') = block_events t ++ block_events t'.
Proof. apply flat_map_app. Qed.

Lemma block_events_after {A} (t : list event) (p : list event * outcome World A) :
  block_events (after t p).1 = block_events t ++ block_events p.1.
Proof. apply block_events_app. Qed.

Lemma skip_or_parse_block_trace (parse : bool) g :
  match skip_or_parse_block parse g with
  | (t, Done v _) => t = [block_event parse g] /\ v = 0
  | (t, Stop _ _) => block_events t = [parse]
  | (_, Fuel) => False
  end.
Proof.
  unfold skip_or_parse_block, block_event. destruct parse; cbn [negb]; cbv iota.
  - rewrite bind_traced_any.
    destruct (Parse_until_eob_or_eof g) as [[] g'|ft g']; [|reflexivity].
    steps. destruct (decide (GotByte g' <> CHAR_EOB)).
    + unfold Throw_serious_error. steps. reflexivity.
    + steps. split; reflexivity.
  - rewrite bind_traced_any.
    destruct (Input_skip_or_store_block false g) as [b g'|ft g']; [|reflexivity].
    steps. split; reflexivity.
Qed.

Lemma parse_block_else_block_blocks (parse_first : bool) g :
  block_events (parse_block_else_block parse_first g).1 = [parse_first] \/
  block_events (parse_block_else_block parse_first g).1 = [parse_first; negb parse_first].
Proof.
  unfold parse_block_else_block.
  pose proof (skip_or_parse_block_trace parse_first g) as H1.
  destruct (skip_or_parse_block parse_first g) as [t1 [v g2|ft g2|]] eqn:Hb1;
    [ rewrite (bind_done _ _ _ _ _ _ Hb1)
    | rewrite (bind_stop _ _ _ _ _ _ Hb1); left; exact H1
    | contradiction ].
  destruct H1 as [-> ->]. destruct (decide (0 <> 0)); [contradiction|].
  assert (H0 : block_events [block_event parse_first g] = [parse_first])
    by (destruct parse_first; reflexivity).
  rewrite block_events_after, H0. clear H0.
  rewrite bind_call_any.
  destruct (NEXTANDSKIPSPACE g2) as [[] g3|ft g3]; [|left; reflexivity]. steps.
  destruct (decide (GotByte g3 = CHAR_EOS)); [left; reflexivity|].
  rewrite bind_call_any.
  destruct (Input_read_and_lower_keyword g3) as [len g4|ft g4]; [|left; reflexivity].
  destruct (decide (len <> 0)).
  - steps. destruct (buffer_is "else" g4); cbn [negb]; cbv iota.
    + rewrite !bind_assoc. rewrite bind_call_any.
      destruct (SKIPSPACE g4) as [[] g5|ft g5]; [|left; reflexivity]. steps.
      destruct (decide (GotByte g5 <> CHAR_SOB)).
      * unfold Throw_serious_error. steps. left. reflexivity.
      * steps.
        pose proof (skip_or_parse_block_trace (negb parse_first) g5) as H2.
        destruct (skip_or_parse_block (negb parse_first) g5) as [t2 [v g6|ft g6|]] eqn:Hb2;
          [ rewrite (bind_done _ _ _ _ _ _ Hb2)
          | rewrite (bind_stop _ _ _ _ _ _ Hb2); right; simpl; rewrite H2; reflexivity
          | contradiction ].
        destruct H2 as [-> _]. right. rewrite block_events_after.
        assert (H0 : block_events [block_event (negb parse_first) g5] = [negb parse_first])
          by (destruct parse_first; reflexivity).
        rewrite H0. simpl. f_equal. f_equal.
        rewrite bind_assoc, bind_call_any.
        destruct (GetByte g6) as [c g7|ft g7]; [|reflexivity].
        steps. reflexivity.
    + unfold Throw_error. steps. left. reflexivity.
  - steps. left. reflexivity.
Qed.

Lemma handled_run (parse : bool) g g' :
  handled parse g = Some g' ->
  skip_or_parse_block parse g = ([block_event parse g], Done 0 g').
Proof.
  unfold handled, parsed, skipped, skip_or_parse_block, block_event.
  destruct parse; cbn [negb]; cbv iota; intros Hh.
  - destruct (Parse_until_eob_or_eof g) as [[] g1|ft g1] eqn:Hp; [|discriminate].
    destruct (decide (GotByte g1 = CHAR_EOB)); [|discriminate]. injection Hh as <-.
    rewrite (bind_traced _ _ _ _ _ _ Hp). steps.
    destruct (decide (GotByte g1 <> CHAR_EOB)); [contradiction|]. steps. reflexivity.
  - destruct (Input_skip_or_store_block false g) as [b g1|ft g1] eqn:Hs; [|discriminate].
    injection Hh as <-. rewrite (bind_traced _ _ _ _ _ _ Hs). steps. reflexivity.
Qed.

(** One block, and the statement ends. *)
Lemma parse_block_else_block_alone (parse_first : bool) g1 g2 g3 :
  handled parse_first g1 = Some g2 ->
  NEXTANDSKIPSPACE g2 = Returns tt g3 ->
  GotByte g3 = CHAR_EOS ->
  parse_block_else_block parse_first g1 = ([block_event parse_first g1], Done tt g3).
Proof.
  intros Hb1%handled_run Hnext Heos.
  unfold parse_block_else_block.
  rewrite (bind_done _ _ _ _ _ _ Hb1).
  destruct (decide (0 <> 0)); [contradiction|].
  rewrite (bind_call _ _ _ _ _ Hnext). steps.
  destruct (decide (GotByte g3 = CHAR_EOS)); [|contradiction].
  rewrite after_ret. reflexivity.
Qed.

(** A block, "else" and a second block. *)
Lemma parse_block_else_block_both (parse_first : bool) g1 g2 g3 len g4 g5 g6 c g7 g8 :
  handled parse_first g1 = Some g2 ->
  NEXTANDSKIPSPACE g2 = Returns tt g3 ->
  GotByte g3 <> CHAR_EOS ->
  Input_read_and_lower_keyword g3 = Returns len g4 ->
  len <> 0 ->
  buffer_is "else" g4 = true ->
  SKIPSPACE g4 = Returns tt g5 ->
  GotByte g5 = CHAR_SOB ->
  handled (negb parse_first) g5 = Some g6 ->
  GetByte g6 = Returns c g7 ->
  Input_ensure_EOS g7 = Returns tt g8 ->
  parse_block_else_block parse_first g1
  = ([block_event parse_first g1; block_event (negb parse_first) g5], Done tt g8).
Proof.
  intros Hb1%handled_run Hnext Heos Hkey Hlen Helse Hskip Hsob2 Hb2%handled_run Hget Hens.
  unfold parse_block_else_block.
  rewrite (bind_done _ _ _ _ _ _ Hb1).
  destruct (decide (0 <> 0)); [contradiction|].
  rewrite (bind_call _ _ _ _ _ Hnext). steps.
  destruct (decide (GotByte g3 = CHAR_EOS)); [contradiction|].
  rewrite ?bind_assoc. rewrite (bind_call _ _ _ _ _ Hkey).
  destruct (decide (len <> 0)); [|contradiction]. steps.
  rewrite Helse. cbn [negb]. cbv iota.
  rewrite ?bind_assoc. rewrite (bind_call _ _ _ _ _ Hskip). steps.
  destruct (decide (GotByte g5 <> CHAR_SOB)); [contradiction|]. steps.
  rewrite (bind_done _ _ _ _ _ _ Hb2). steps.
  rewrite (bind_call _ _ _ _ _ Hget). steps.
  unfold call. rewrite Hens. reflexivity.
Qed.

(** C5.  "!if": the value of the expression is [v].  The first block is
    parsed by Parse_until_eob_or_eof if [v] is not zero and skipped by
    Input_skip_or_store_block if it is zero; a second block, when the
    handler comes to one, is treated the other way round, so of the two
    blocks exactly one is parsed.  When the statement ends after the first
    block, the handler returns ENSURE_EOS without any diagnostic, with the
    globals the first block and the look for what follows have left.  When
    "else" and a block follow, the handler deals with the second block and
    returns, with the globals the two blocks and the calls around them have
    led to. *)
Theorem PO_if_blocks g v g1 :
  ALU_defined_int g = Returns v g1 ->
  GotByte g1 = CHAR_SOB ->
  let parse_first := bool_decide (v <> 0) in
  (block_events (PO_if g).1 = [parse_first] \/
   block_events (PO_if g).1 = [parse_first; negb parse_first]) /\
  (* no else *)
  (forall g2 g3,
     handled parse_first g1 = Some g2 ->
     NEXTANDSKIPSPACE g2 = Returns tt g3 ->
     GotByte g3 = CHAR_EOS ->
     PO_if g = ([block_event parse_first g1], Done ENSURE_EOS g3)) /\
  (* else and a second block *)
  (forall g2 g3 len g4 g5 g6 c g7 g8,
     handled parse_first g1 = Some g2 ->
     NEXTANDSKIPSPACE g2 = Returns tt g3 ->
     GotByte g3 <> CHAR_EOS ->
     Input_read_and_lower_keyword g3 = Returns len g4 ->
     len <> 0 ->
     buffer_is "else" g4 = true ->
     SKIPSPACE g4 = Returns tt g5 ->
     GotByte g5 = CHAR_SOB ->
     handled (negb parse_first) g5 = Some g6 ->
     GetByte g6 = Returns c g7 ->
     Input_ensure_EOS g7 = Returns tt g8 ->
     PO_if g
     = ([block_event parse_first g1; block_event (negb parse_first) g5],
        Done ENSURE_EOS g8) /\
     block_events (PO_if g).1 = [parse_first; negb parse_first] /\
     count_occ bool_dec (block_events (PO_if g).1) true = 1%nat).
Proof.
  intros Halu Hsob parse_first.
  assert (Hif : PO_if g = (parse_block_else_block parse_first ≫= fun _ => mret ENSURE_EOS) g1).
  { unfold PO_if. rewrite (bind_call _ _ _ _ _ Halu). steps.
    destruct (decide (GotByte g1 <> CHAR_SOB)); [contradiction|]. steps. reflexivity. }
  split; [|split].
  - rewrite Hif. pose proof (parse_block_else_block_blocks parse_first g1) as Hb.
    unfold mbind, M_bind, bind.
    destruct (parse_block_else_block parse_first g1) as [t [[] g2|ft g2|]];
      simpl in *; rewrite ?app_nil_r; exact Hb.
  - intros g2 g3 Hb1 Hnext Heos. rewrite Hif.
    rewrite (bind_done _ _ _ _ _ _
               (parse_block_else_block_alone _ _ _ _ Hb1 Hnext Heos)).
    rewrite after_ret. reflexivity.
  - intros g2 g3 len g4 g5 g6 c g7 g8
      Hb1 Hnext Heos Hkey Hlen Helse Hskip Hsob2 Hb2 Hget Hens.
    assert (Hrun : PO_if g
                   = ([block_event parse_first g1; block_event (negb parse_first) g5],
                      Done ENSURE_EOS g8)).
    { rewrite Hif.
      rewrite (bind_done _ _ _ _ _ _
                 (parse_block_else_block_both _ _ _ _ _ _ _ _ _ _ _
                    Hb1 Hnext Heos Hkey Hlen Helse Hskip Hsob2 Hb2 Hget Hens)).
      rewrite after_ret. reflexivity. }
    rewrite Hrun. split; [reflexivity|]. simpl fst.
    assert (Hbe : block_events [block_event parse_first g1; block_event (negb parse_first) g5]
                  = [parse_first; negb parse_first])
      by (destruct parse_first; reflexivity).
    rewrite Hbe. split; [reflexivity|]. destruct parse_first; reflexivity.
Qed.

End IfProofs.

Section InputProofs.
Context {World : Type} `{E : Externals World}.
Implicit Types g : globals World.




End InputProofs.

(** * The statements on the small assembler *)

(** The body "i}" of a loop parses up to its right brace. *)
Lemma toy_body_parses (ls : Z) :
  forall g : Toy.G,
    line_number (active g) = ls ->
    src (active g) = src_ram (Some [105; 125; 0; 13]) ->
    exists g', Parse_until_eob_or_eof g = Returns tt g' /\ GotByte g' = CHAR_EOB.
Proof.
  intros g _ Hsrc. eexists. split; [reflexivity|].
  unfold Toy.parse_statements, Toy.rest. rewrite Hsrc. simpl.
  destruct (symbols g !! Z.to_nat 105) as [s|]; [|reflexivity].
  destruct (bool_decide _); reflexivity.
Defined.

Ltac by_computation := vm_compute; first [reflexivity | discriminate].

(** "!do while 0 { i } until 1": the head condition is false at once.
    "!do { i } until 1" with i = 7: one turn, in which the body is parsed
    and writes the value of i. *)
Lemma do_loop_trace_witness :
  (exists g1,
     do_loop 1 (mk_condition 1 false (Some [48; 0])) (mk_condition 1 true (Some [49; 0]))
       1 (Some [105; 125; 0; 13]) (Toy.start [] [])
     = ([EvCheck (mk_condition 1 false (Some [48; 0])) false], Done tt g1)) /\
  (exists g',
     do_loop 1 (mk_condition 1 false None) (mk_condition 1 true (Some [49; 0]))
       1 (Some [105; 125; 0; 13]) (Toy.start_with [(105%nat, 7)] [])
     = ([EvCheck (mk_condition 1 false None) true;
         EvParse 1 (src_ram (Some [105; 125; 0; 13]));
         EvCheck (mk_condition 1 true (Some [49; 0])) false], Done tt g') /\
     Toy.output (world g') = [7]).
Proof.
  split.
  - pose proof (do_loop_trace (E:=Toy.toy)
                  (mk_condition 1 false (Some [48; 0])) (mk_condition 1 true (Some [49; 0]))
                  1 (Some [105; 125; 0; 13])) as [Hhead _].
    eexists. eapply Hhead. by_computation.
  - pose proof (do_loop_trace (E:=Toy.toy)
                  (mk_condition 1 false None) (mk_condition 1 true (Some [49; 0]))
                  1 (Some [105; 125; 0; 13])) as (_ & Hreturns & _).
    eexists. split.
    + apply Hreturns. exists 0%nat, (Toy.start_with [(105%nat, 7)] []).
      split; [lia|]. split; [reflexivity|]. right. do 2 eexists.
      split; [by_computation|]. split; [by_computation|]. split; [by_computation|].
      reflexivity.
    + by_computation.
Defined.

(** "!for i, 2, 5 { i }": the body writes 2, 3, 4 and 5, and i is left at
    6. *)
Lemma PO_for_new_syntax_witness :
  exists g',
    PO_for 4 (Toy.start (bytes " i,2,5{i}") [])
    = ([EvWarning found_new_for_syntax; EvBlock true;
        EvSetValue 105 (mk_result 80 2) true; EvParse 1 (src_ram (Some [105; 125; 0; 13]));
        EvSetValue 105 (mk_result 80 3) true; EvParse 1 (src_ram (Some [105; 125; 0; 13]));
        EvSetValue 105 (mk_result 80 4) true; EvParse 1 (src_ram (Some [105; 125; 0; 13]));
        EvSetValue 105 (mk_result 80 5) true; EvParse 1 (src_ram (Some [105; 125; 0; 13]));
        EvSetValue 105 (mk_result 80 6) true], Done ENSURE_EOS g') /\
    Toy.output (world g') = [2; 3; 4; 5] /\
    intval (sym_result (symbol_at 105 g')) = 6.
Proof.
  edestruct (PO_for_new_syntax (E:=Toy.toy) (Toy.start (bytes " i,2,5{i}") []))
    with (fuel := 4%nat) as (_ & Hrun & _).
  - by_computation.
  - by_computation.
  - by_computation.
  - by_computation.
  - by_computation.
  - by_computation.
  - by_computation.
  - by_computation.
  - by_computation.
  - by_computation.
  - vm_compute. split; [discriminate|reflexivity].
  - vm_compute. split; [discriminate|reflexivity].
  - by_computation.
  - by_computation.
  - by_computation.
  - by_computation.
  - by_computation.
  - by_computation.
  - eexists. split; [rewrite Hrun; by_computation|]. split; by_computation.
Defined.

(** "!for i, 3 { i }": the body writes 1, 2 and 3.  "!for i, -1 { i }". *)
Lemma PO_for_old_syntax_witness :
  (exists g',
     PO_for 3 (Toy.start (bytes " i,3 {i}") [])
     = ([EvBlock true; EvSetValue 105 (mk_result 80 0) true;
         EvSetValue 105 (mk_result 80 1) true; EvParse 1 (src_ram (Some [105; 125; 0; 13]));
         EvSetValue 105 (mk_result 80 2) true; EvParse 1 (src_ram (Some [105; 125; 0; 13]));
         EvSetValue 105 (mk_result 80 3) true; EvParse 1 (src_ram (Some [105; 125; 0; 13]))],
        Done ENSURE_EOS g') /\
     Toy.output (world g') = [1; 2; 3]) /\
  (exists g',
     PO_for 3 (Toy.start (bytes " i,-1 {i}") [])
     = ([EvSerious loop_count_is_negative], Stop (Serious loop_count_is_negative) g')).
Proof.
  split.
  - edestruct (PO_for_old_syntax (E:=Toy.toy) (Toy.start (bytes " i,3 {i}") []))
      as (_ & Hpos).
    + by_computation.
    + by_computation.
    + by_computation.
    + by_computation.
    + by_computation.
    + by_computation.
    + by_computation.
    + by_computation.
    + by_computation.
    + edestruct (Hpos ltac:(by_computation)) with (fuel := 3%nat) as (Hrun & _).
      * vm_compute. split; [discriminate|reflexivity].
      * by_computation.
      * by_computation.
      * by_computation.
      * by_computation.
      * by_computation.
      * by_computation.
      * eexists. split; [rewrite Hrun; by_computation|]. by_computation.
  - edestruct (PO_for_old_syntax (E:=Toy.toy) (Toy.start (bytes " i,-1 {i}") []))
      as (Hneg & _).
    + by_computation.
    + by_computation.
    + by_computation.
    + by_computation.
    + by_computation.
    + by_computation.
    + by_computation.
    + by_computation.
    + by_computation.
    + eexists. rewrite (Hneg ltac:(by_computation)). by_computation.
Defined.

(** The conditions "until 1" and "while 1", and a condition that is not
    there. *)
Lemma check_condition_value_witness :
  exists g2,
    check_condition (mk_condition 1 true None) (Toy.start [] [])
    = ([EvCheck (mk_condition 1 true None) true], Done true (Toy.start [] [])) /\
    check_condition (mk_condition 1 true (Some [49; 0])) (Toy.start [] [])
    = ([EvCheck (mk_condition 1 true (Some [49; 0])) false], Done false g2) /\
    check_condition (mk_condition 1 false (Some [49; 0])) (Toy.start [] [])
    = ([EvCheck (mk_condition 1 false (Some [49; 0])) true], Done true g2).
Proof.
  edestruct (check_condition_value (E:=Toy.toy) 1 [49; 0] (Toy.start [] []))
    as (Hnull & Huntil & Hwhile).
  - by_computation.
  - by_computation.
  - by_computation.
  - eexists. split; [apply Hnull|]. split; [exact Huntil|exact Hwhile].
Defined.

(** "!if 1 { i } else { j }" with i = 1 and j = 2: the first block is
    parsed and writes 1, the second block is skipped. *)
Lemma PO_if_blocks_witness :
  exists g8,
    PO_if (Toy.start_with [(105%nat, 1); (106%nat, 2)] (bytes "1 {i} else {j}"))
    = ([EvParse 1 (src_ram (Some (bytes "i} else {j}"))); EvBlock false],
       Done ENSURE_EOS g8) /\
    Toy.output (world g8) = [1].
Proof.
  edestruct (PO_if_blocks (E:=Toy.toy)
               (Toy.start_with [(105%nat, 1); (106%nat, 2)] (bytes "1 {i} else {j}")))
    as (_ & _ & Helse).
  - by_computation.
  - by_computation.
  - edestruct Helse as (Hrun & _).
    + by_computation.
    + by_computation.
    + by_computation.
    + by_computation.
    + by_computation.
    + by_computation.
    + by_computation.
    + by_computation.
    + by_computation.
    + by_computation.
    + by_computation.
    + eexists. split; [rewrite Hrun; by_computation|]. by_computation.
Defined.

(** "!ifdef i lda" and "!ifndef i lda" when i is defined. *)
Lemma ifdef_ifndef_remainder_witness :
  exists g3,
    PO_ifdef (Toy.start_with [(105%nat, 7)] (bytes " i lda"))
    = ([], Done PARSE_REMAINDER g3) /\
    PO_ifndef (Toy.start_with [(105%nat, 7)] (bytes " i lda"))
    = ([], Done SKIP_REMAINDER g3).
Proof.
  edestruct (ifdef_ifndef_remainder (E:=Toy.toy)
               (Toy.start_with [(105%nat, 7)] (bytes " i lda"))) as (Hdef & Hndef).
  - by_computation.
  - by_computation.
  - by_computation.
  - by_computation.
  - by_computation.
  - eexists. split; [rewrite Hdef|rewrite Hndef]; by_computation.
Defined.

(** The condition "1 x". *)
Lemma check_condition_garbage_witness :
  exists g2,
    check_condition (mk_condition 1 false (Some [49; 32; 120; 0])) (Toy.start [] [])
    = ([EvSerious exception_syntax], Stop (Serious exception_syntax) g2).
Proof.
  edestruct (check_condition_garbage (E:=Toy.toy)
               (mk_condition 1 false (Some [49; 32; 120; 0])) [49; 32; 120; 0]
               (Toy.start [] [])) as (Hstop & _).
  - reflexivity.
  - by_computation.
  - by_computation.
  - by_computation.
  - eexists. exact Hstop.
Defined.

(** "!do { i } until 1 x": the body is parsed once, then the tail condition
    is checked, the byte "x" is left after its expression, and the
    assembler stops with a serious error. *)
Lemma check_condition_garbage_counterexample :
  exists g',
    PO_do 10 (Toy.start (bytes " {i} until 1 x") [])
    = ([EvBlock true;
        EvCheck (mk_condition 1 false None) true;
        EvParse 1 (src_ram (Some [105; 125; 0; 13]));
        EvSerious exception_syntax],
       Stop (Serious exception_syntax) g') /\
    GotByte g' = 120.
Proof. eexists. split; by_computation. Qed.



(** "!for i, 0 { i }" *)
Lemma PO_for_initial_value_witness :
  exists g',
    PO_for 0 (Toy.start (bytes " i,0 {i}") [])
    = ([EvBlock true; EvSetValue 105 (mk_result 80 0) true], Done ENSURE_EOS g') /\
    intval (sym_result (symbol_at 105 g')) = 0 /\
    Z.land (flags (sym_result (symbol_at 105 g'))) 16 = 16 /\
    Z.land (flags (sym_result (symbol_at 105 g'))) 64 = 64.
Proof.
  edestruct (PO_for_initial_value (E:=Toy.toy) (Toy.start (bytes " i,0 {i}") []))
    as (_ & _ & Hzero).
  - by_computation.
  - by_computation.
  - by_computation.
  - by_computation.
  - by_computation.
  - by_computation.
  - by_computation.
  - by_computation.
  - edestruct (Hzero ltac:(by_computation) ltac:(by_computation))
      as (g' & Hrun & Hval & Hdef & Hex).
    + by_computation.
    + by_computation.
    + by_computation.
    + by_computation.
    + by_computation.
    + by_computation.
    + by_computation.
    + exists g'. split; [rewrite Hrun; by_computation|].
      split; [exact Hval|]. split; [exact Hdef|exact Hex].
Defined.

(** "!source a.a", with no quotes around the file name. *)
Lemma PO_source_budget_witness :
  exists g2,
    PO_source (Toy.start (bytes " a.a") []) = ([], Done SKIP_REMAINDER g2) /\
    source_recursions_left g2 = source_recursions_left (Toy.start (bytes " a.a") []) - 1.
Proof.
  assert (H1 : 1 <= source_recursions_left (Toy.start (bytes " a.a") []))
    by by_computation.
  assert (H2 : in_range int_bits (source_recursions_left (Toy.start (bytes " a.a") [])))
    by (vm_compute; split; [discriminate|reflexivity]).
  destruct (PO_source_budget (Toy.start (bytes " a.a") []) H1 H2) as [Hfail _].
  eexists. eapply Hfail.
  - by_computation.
  - by_computation.
  - by_computation.
Defined.

(** The examples of the specification, assembled: the block "i" writes the
    value of the symbol i to the output each time it is parsed. *)
Example for_new_up_assembled :
  Toy.assembled (PO_for 4 (Toy.start (bytes " i,2,5{i}") [])) = [2; 3; 4; 5].
Proof. by_computation. Qed.

Example for_new_down_assembled :
  Toy.assembled (PO_for 4 (Toy.start (bytes " i,5,2{i}") [])) = [5; 4; 3; 2].
Proof. by_computation. Qed.

Example for_old_assembled :
  Toy.assembled (PO_for 3 (Toy.start (bytes " i,3 {i}") [])) = [1; 2; 3].
Proof. by_computation. Qed.

Example for_old_zero_assembled :
  Toy.assembled (PO_for 0 (Toy.start (bytes " i,0 {i}") [])) = [].
Proof. by_computation. Qed.

Example do_while_zero_assembled :
  Toy.assembled (PO_do 1 (Toy.start_with [(105%nat, 7)] (bytes " while 0 {i} until 1"))) = [].
Proof. by_computation. Qed.

Example do_until_one_assembled :
  Toy.assembled (PO_do 1 (Toy.start_with [(105%nat, 7)] (bytes " {i} until 1"))) = [7].
Proof. by_computation. Qed.

Example if_true_assembled :
  Toy.assembled
    (PO_if (Toy.start_with [(105%nat, 1); (106%nat, 2)] (bytes "1 {i} else {j}"))) = [1].
Proof. by_computation. Qed.

Example if_false_assembled :
  Toy.assembled
    (PO_if (Toy.start_with [(105%nat, 1); (106%nat, 2)] (bytes "0 {i} else {j}"))) = [2].
Proof. by_computation. Qed.

Example ifndef_assembled :
  Toy.assembled (PO_ifndef (Toy.start (bytes " i {i} else {j}") [])) = [] /\
  (PO_ifndef (Toy.start (bytes " i {i} else {j}") [])).1
  = [EvParse 1 (src_ram (Some (bytes "i} else {j}"))); EvBlock false].
Proof. split; by_computation. Qed.

(** * More of flow.c *)

Section StoreConditionProofs.
Context {World : Type} `{E : Externals World}.
Implicit Types g : globals World.

(** X1.  When the byte at hand is the terminator there is no condition:
    store_condition reads nothing and raises nothing, and whatever the
    structure held before, it now holds the current line number, no invert
    flag and no expression.  Such a condition is true at every check, and
    the check leaves the globals alone. *)
Theorem store_condition_empty (c : loop_condition) (terminator : Z) g :
  GotByte g = terminator ->
  store_condition c terminator g
  = ([], Done (mk_condition (line_number (active g)) false None) g) /\
  forall g',
    check_condition (mk_condition (line_number (active g)) false None) g'
    = ([EvCheck (mk_condition (line_number (active g)) false None) true], Done true g').
Proof.
  intros Hgot. split.
  - unfold store_condition. steps.
    destruct (decide (GotByte g = terminator)); [reflexivity|contradiction].
  - intros g'. apply check_condition_null.
Qed.

Lemma Tree_easy_scan_condkeys (buf : list Z) :
  Tree_easy_scan condkeys buf
  = if decide (c_str buf = bytes "until") then Some true
    else if decide (c_str buf = bytes "while") then Some false
    else None.
Proof.
  unfold condkeys. simpl.
  destruct (decide (bytes "until" = c_str buf)), (decide (c_str buf = bytes "until"));
    try congruence.
  destruct (decide (bytes "while" = c_str buf)), (decide (c_str buf = bytes "while"));
    congruence.
Qed.

(** X2.  A condition that starts with a keyword.  If the keyword is
    neither "until" nor "while", a syntax error is raised, assembly goes
    on, nothing more is read and the condition is the empty one.  If it is
    "until" or "while", the expression is what Input_until_terminator puts
    into the emptied buffer, with CHAR_EOS appended, and the invert flag is
    set for "until" only. *)
Theorem store_condition_keyword (c : loop_condition) (terminator : Z) g len g1 :
  GotByte g <> terminator ->
  Input_read_and_lower_keyword g = Returns len g1 ->
  len <> 0 ->
  let ln := line_number (active g) in
  (c_str (GlobalDynaBuf g1) <> bytes "until" ->
   c_str (GlobalDynaBuf g1) <> bytes "while" ->
   store_condition c terminator g
   = ([EvError exception_syntax], Done (mk_condition ln false None) g1)) /\
  (forall g2 g3,
     c_str (GlobalDynaBuf g1) = bytes "until" \/ c_str (GlobalDynaBuf g1) = bytes "while" ->
     SKIPSPACE g1 = Returns tt g2 ->
     Input_until_terminator terminator (set_GlobalDynaBuf [] g2) = Returns tt g3 ->
     store_condition c terminator g
     = ([], Done (mk_condition ln
                    (bool_decide (c_str (GlobalDynaBuf g1) = bytes "until"))
                    (Some (GlobalDynaBuf g3 ++ [CHAR_EOS])))
              (set_GlobalDynaBuf (GlobalDynaBuf g3 ++ [CHAR_EOS]) g3))).
Proof.
  intros Hgot Hkey Hlen ln.
  assert (Hstart : forall r,
            (match Tree_easy_scan condkeys (GlobalDynaBuf g1) with
             | None =>
                 Throw_error exception_syntax;;
                 mret (mk_condition ln false None)
             | Some node_body =>
                 call SKIPSPACE;;
                 DYNABUF_CLEAR;;
                 call (Input_until_terminator terminator);;
                 DynaBuf_append CHAR_EOS;;
                 copy ← DynaBuf_get_copy;
                 mret (mk_condition ln node_body copy)
             end) g1 = r ->
            store_condition c terminator g = r).
  { intros r <-. unfold store_condition. steps.
    destruct (decide (GotByte g = terminator)); [contradiction|].
    rewrite (bind_call _ _ _ _ _ Hkey).
    destruct (decide (len <> 0)); [|contradiction]. steps. reflexivity. }
  split.
  - intros Hu Hw. apply Hstart. rewrite Tree_easy_scan_condkeys.
    destruct (decide (c_str (GlobalDynaBuf g1) = bytes "until")); [contradiction|].
    destruct (decide (c_str (GlobalDynaBuf g1) = bytes "while")); [contradiction|].
    unfold Throw_error. steps. reflexivity.
  - intros g2 g3 Hk Hskip Huntil. apply Hstart. rewrite Tree_easy_scan_condkeys.
    assert (Hrun : forall inv,
              (call SKIPSPACE;;
               DYNABUF_CLEAR;;
               call (Input_until_terminator terminator);;
               DynaBuf_append CHAR_EOS;;
               copy ← DynaBuf_get_copy;
               mret (mk_condition ln inv copy)) g1
              = ([], Done (mk_condition ln inv (Some (GlobalDynaBuf g3 ++ [CHAR_EOS])))
                       (set_GlobalDynaBuf (GlobalDynaBuf g3 ++ [CHAR_EOS]) g3))).
    { intros inv. rewrite (bind_call _ _ _ _ _ Hskip).
      unfold DYNABUF_CLEAR, DynaBuf_append, DynaBuf_get_copy. steps.
      rewrite (bind_call _ _ _ _ _ Huntil). steps. reflexivity. }
    destruct (decide (c_str (GlobalDynaBuf g1) = bytes "until")) as [Hu|Hu].
    + rewrite bool_decide_eq_true_2 by assumption. apply Hrun.
    + rewrite bool_decide_eq_false_2 by assumption.
      destruct (decide (c_str (GlobalDynaBuf g1) = bytes "while")); [apply Hrun|].
      destruct Hk; contradiction.
Qed.

(** X3.  Whatever the input is, when store_condition returns, the
    structure holds the line number that was current at the call, and
    either the empty condition, or what it held before (no keyword could be
    read), or an expression that ends with CHAR_EOS and is also what the
    global buffer holds.  The only diagnostic it can have raised is one
    syntax error, and then the condition is the empty one. *)
Theorem store_condition_result (c : loop_condition) (terminator : Z) g t c' g' :
  store_condition c terminator g = (t, Done c' g') ->
  line c' = line_number (active g) /\
  (t = [] \/ (t = [EvError exception_syntax] /\ body c' = None)) /\
  ((body c' = None /\ invert c' = false) \/
   (body c' = body c /\ invert c' = invert c) \/
   (exists b, body c' = Some (b ++ [CHAR_EOS]) /\ GlobalDynaBuf g' = b ++ [CHAR_EOS])).
Proof.
  unfold store_condition. steps.
  destruct (decide (GotByte g = terminator)).
  - intros [= <- <- <-]. simpl. split; [reflexivity|].
    split; [left; reflexivity|]. left. split; reflexivity.
  - rewrite bind_call_any.
    destruct (Input_read_and_lower_keyword g) as [len g1|ft g1]; [|discriminate].
    destruct (decide (len <> 0)).
    + steps. destruct (Tree_easy_scan condkeys (GlobalDynaBuf g1)) as [inv|].
      * rewrite bind_call_any. destruct (SKIPSPACE g1) as [[] g2|ft g2]; [|discriminate].
        unfold DYNABUF_CLEAR, DynaBuf_append, DynaBuf_get_copy. steps.
        rewrite bind_call_any.
        destruct (Input_until_terminator terminator (set_GlobalDynaBuf [] g2))
          as [[] g3|ft g3]; [|discriminate].
        steps. intros [= <- <- <-]. simpl. split; [reflexivity|].
        split; [left; reflexivity|]. right. right. eexists. split; reflexivity.
      * unfold Throw_error. steps. intros [= <- <- <-]. simpl. split; [reflexivity|].
        split; [right; split; reflexivity|]. left. split; reflexivity.
    + intros [= <- <- <-]. simpl. split; [reflexivity|].
      split; [left; reflexivity|]. right. left. split; reflexivity.
Qed.

End StoreConditionProofs.

Section ErrorProofs.
Context {World : Type} `{E : Externals World}.
Implicit Types g : globals World.

(** X4.  A loop or a conditional whose head is not followed by a left
    brace is a serious error, raised before any block is captured, skipped
    or parsed: in "!if" after the expression, in "!for" after the
    arguments, in "!do" after the head condition, and after "else". *)
Theorem missing_left_brace :
  (forall g v g1,
     ALU_defined_int g = Returns v g1 ->
     GotByte g1 <> CHAR_SOB ->
     PO_if g
     = ([EvSerious exception_no_left_brace], Stop (Serious exception_no_left_brace) g1)) /\
  (forall fuel a g,
     GotByte g <> CHAR_SOB ->
     for_run fuel a g
     = ([EvSerious exception_no_left_brace], Stop (Serious exception_no_left_brace) g)) /\
  (forall fuel g g1 t c1 g2,
     SKIPSPACE g = Returns tt g1 ->
     store_condition (mk_condition 0 false None) CHAR_SOB g1 = (t, Done c1 g2) ->
     GotByte g2 <> CHAR_SOB ->
     PO_do fuel g
     = (t ++ [EvSerious exception_no_left_brace],
        Stop (Serious exception_no_left_brace) g2)) /\
  (forall parse_first g g2 g3 len g4 g5,
     skip_or_parse_block parse_first g = ([block_event parse_first g], Done 0 g2) ->
     NEXTANDSKIPSPACE g2 = Returns tt g3 ->
     GotByte g3 <> CHAR_EOS ->
     Input_read_and_lower_keyword g3 = Returns len g4 ->
     len <> 0 ->
     buffer_is "else" g4 = true ->
     SKIPSPACE g4 = Returns tt g5 ->
     GotByte g5 <> CHAR_SOB ->
     parse_block_else_block parse_first g
     = ([block_event parse_first g; EvSerious exception_no_left_brace],
        Stop (Serious exception_no_left_brace) g5)).
Proof.
  split; [|split; [|split]].
  - intros g v g1 Halu Hsob. unfold PO_if.
    rewrite (bind_call _ _ _ _ _ Halu). steps.
    destruct (decide (GotByte g1 <> CHAR_SOB)); [|contradiction].
    unfold Throw_serious_error. steps. reflexivity.
  - intros fuel a g Hsob. unfold for_run. steps.
    destruct (decide (GotByte g <> CHAR_SOB)); [|contradiction].
    unfold Throw_serious_error. steps. reflexivity.
  - intros fuel g g1 t c1 g2 Hskip Hstore Hsob. unfold PO_do. cbv zeta.
    rewrite (bind_call _ _ _ _ _ Hskip).
    rewrite (bind_done _ _ _ _ _ _ Hstore). steps.
    destruct (decide (GotByte g2 <> CHAR_SOB)); [|contradiction].
    unfold Throw_serious_error. steps. reflexivity.
  - intros parse_first g g2 g3 len g4 g5 Hb1 Hnext Heos Hkey Hlen Helse Hskip Hsob.
    unfold parse_block_else_block.
    rewrite (bind_done _ _ _ _ _ _ Hb1).
    destruct (decide (0 <> 0)); [contradiction|].
    rewrite (bind_call _ _ _ _ _ Hnext). steps.
    destruct (decide (GotByte g3 = CHAR_EOS)); [contradiction|].
    rewrite ?bind_assoc. rewrite (bind_call _ _ _ _ _ Hkey).
    destruct (decide (len <> 0)); [|contradiction]. steps.
    rewrite Helse. cbn [negb]. cbv iota.
    rewrite ?bind_assoc. rewrite (bind_call _ _ _ _ _ Hskip). steps.
    destruct (decide (GotByte g5 <> CHAR_SOB)); [|contradiction].
    unfold Throw_serious_error. steps. reflexivity.
Qed.

(** X5.  "!source" with no inclusion level left: the counter is taken
    below zero, the handler raises the serious error and does nothing
    else; the file name is not read and the counter is not put back. *)
Theorem PO_source_too_deep g :
  source_recursions_left g <= 0 ->
  - half int_bits < source_recursions_left g ->
  PO_source g
  = ([EvSerious too_deeply_nested], Stop (Serious too_deeply_nested) (entered g)) /\
  source_recursions_left (entered g) = source_recursions_left g - 1.
Proof.
  intros Hzero Hmin.
  assert (Hdec : source_recursions_left (entered g) = source_recursions_left g - 1).
  { unfold entered. simpl. apply swrap_in_range.
    unfold in_range. pose proof (half_pos int_bits). lia. }
  split; [|exact Hdec].
  unfold PO_source. steps. fold (entered g). rewrite Hdec.
  destruct (decide (source_recursions_left g - 1 < 0)); [|lia].
  unfold Throw_serious_error. steps. reflexivity.
Qed.

(** X6.  Parse_and_close_file sets up the input for the file, parses, and
    closes the file the active input then reads from.  If the parse ended
    at a right brace instead of the end of the file, an error is raised and
    the file is closed all the same; the function returns in both cases.
    The file name is printed only at a verbosity above 2. *)
Theorem Parse_and_close_file_runs (fd : FILE) (filename : list Z) g g1 g2 g3 :
  Input_new_file filename fd g = Returns tt g1 ->
  Parse_until_eob_or_eof g1 = Returns tt g2 ->
  fclose (active_fd g2) g2 = Returns tt g3 ->
  Parse_and_close_file fd filename g
  = ((if decide (2 < Process_verbosity g) then [EvPrintf filename] else [])
       ++ ev_parse g1
       :: (if decide (GotByte g2 = CHAR_EOF) then []
           else [EvError found_eob_instead_of_eof]),
     Done tt g3).
Proof.
  intros Hnew Hparse Hclose. unfold Parse_and_close_file. steps.
  assert (Hrest :
            (call (Input_new_file filename fd);;
             traced ev_parse Parse_until_eob_or_eof;;
             gb ← gets GotByte;
             (if decide (gb <> CHAR_EOF)
              then Throw_error found_eob_instead_of_eof
              else mret tt);;
             fd' ← gets active_fd;
             call (fclose fd')) g
            = (ev_parse g1
                 :: (if decide (GotByte g2 = CHAR_EOF) then []
                     else [EvError found_eob_instead_of_eof]),
               Done tt g3)).
  { rewrite (bind_call _ _ _ _ _ Hnew).
    rewrite (bind_traced _ _ _ _ _ _ Hparse). steps.
    destruct (decide (GotByte g2 <> CHAR_EOF)), (decide (GotByte g2 = CHAR_EOF));
      try contradiction.
    - unfold Throw_error. steps. unfold call. rewrite Hclose. reflexivity.
    - steps. unfold call. rewrite Hclose. reflexivity. }
  destruct (decide (2 < Process_verbosity g)).
  - steps. rewrite Hrest. reflexivity.
  - steps. rewrite Hrest. reflexivity.
Qed.

(** X7.  skip_or_parse_block never returns anything but 0: a block that
    was parsed and did not end at a right brace is a serious error, not a
    return value, so the early return of parse_block_else_block on a
    missing terminator is never taken.  When it returns after a parse,
    GotByte is the right brace. *)
Theorem skip_or_parse_block_result (parse : bool) g :
  (forall t v g',
     skip_or_parse_block parse g = (t, Done v g') ->
     v = 0 /\ t = [block_event parse g] /\ (parse = true -> GotByte g' = CHAR_EOB)) /\
  (forall g',
     parse = true ->
     Parse_until_eob_or_eof g = Returns tt g' ->
     GotByte g' <> CHAR_EOB ->
     skip_or_parse_block parse g
     = ([ev_parse g; EvSerious exception_no_right_brace],
        Stop (Serious exception_no_right_brace) g')).
Proof.
  split.
  - intros t v g'. unfold skip_or_parse_block, block_event.
    destruct parse; cbn [negb]; cbv iota.
    + rewrite bind_traced_any.
      destruct (Parse_until_eob_or_eof g) as [[] g1|ft g1]; [|discriminate].
      steps. destruct (decide (GotByte g1 <> CHAR_EOB)) as [Hne|Heq].
      * unfold Throw_serious_error. steps. discriminate.
      * steps. intros [= <- <- <-]. split; [reflexivity|]. split; [reflexivity|].
        intros _. destruct (decide (GotByte g1 = CHAR_EOB)); [assumption|contradiction].
    + rewrite bind_traced_any.
      destruct (Input_skip_or_store_block false g) as [b g1|ft g1]; [|discriminate].
      steps. intros [= <- <- <-]. split; [reflexivity|]. split; [reflexivity|].
      discriminate.
  - intros g' -> Hparse Heob. unfold skip_or_parse_block. cbn [negb]. cbv iota.
    rewrite (bind_traced _ _ _ _ _ _ Hparse). steps.
    destruct (decide (GotByte g' <> CHAR_EOB)); [|contradiction].
    unfold Throw_serious_error. steps. reflexivity.
Qed.

(** X8.  After the first block of a conditional, something that is not the
    end of the statement.  A keyword other than "else" is a syntax error:
    assembly goes on, no second block is parsed or skipped, and
    Input_ensure_EOS is still called.  If no keyword can be read,
    Input_ensure_EOS is called with no error raised here. *)
Theorem else_expected (parse_first : bool) g g2 g3 len g4 g5 :
  skip_or_parse_block parse_first g = ([block_event parse_first g], Done 0 g2) ->
  NEXTANDSKIPSPACE g2 = Returns tt g3 ->
  GotByte g3 <> CHAR_EOS ->
  Input_read_and_lower_keyword g3 = Returns len g4 ->
  Input_ensure_EOS g4 = Returns tt g5 ->
  (len <> 0 -> buffer_is "else" g4 = false ->
   parse_block_else_block parse_first g
   = ([block_event parse_first g; EvError exception_syntax], Done tt g5)) /\
  (len = 0 ->
   parse_block_else_block parse_first g = ([block_event parse_first g], Done tt g5)).
Proof.
  intros Hb1 Hnext Heos Hkey Hens.
  assert (Hstart : forall r,
            ((if decide (len <> 0) then
                is_else ← gets (buffer_is "else");
                if negb is_else then Throw_error exception_syntax
                else
                  call SKIPSPACE;;
                  gb ← gets GotByte;
                  (if decide (gb <> CHAR_SOB)
                   then Throw_serious_error exception_no_left_brace
                   else mret tt);;
                  skip_or_parse_block (negb parse_first);;
                  call GetByte;;
                  mret tt
              else mret tt);;
             call Input_ensure_EOS) g4 = r ->
            parse_block_else_block parse_first g = after [block_event parse_first g] r).
  { intros r <-. unfold parse_block_else_block.
    rewrite (bind_done _ _ _ _ _ _ Hb1).
    destruct (decide (0 <> 0)); [contradiction|].
    rewrite (bind_call _ _ _ _ _ Hnext). steps.
    destruct (decide (GotByte g3 = CHAR_EOS)); [contradiction|].
    rewrite (bind_call _ _ _ _ _ Hkey). reflexivity. }
  split.
  - intros Hlen Helse. rewrite (Hstart _ eq_refl).
    destruct (decide (len <> 0)); [|contradiction]. steps.
    rewrite Helse. cbn [negb]. cbv iota. unfold Throw_error. steps.
    unfold call. rewrite Hens. reflexivity.
  - intros Hlen. rewrite (Hstart _ eq_refl).
    destruct (decide (len <> 0)); [contradiction|]. steps.
    unfold call. rewrite Hens. reflexivity.
Qed.

End ErrorProofs.

Section NameProofs.
Context {World : Type} `{E : Externals World}.
Implicit Types g : globals World.

(** "!ifdef" and "!ifndef" from the call of SKIPSPACE on. *)
Lemma ifdef_ifndef_found (inv : bool) g len zone g1 node g2 g3 :
  Input_read_zone_and_keyword g = Returns (len, zone) g1 ->
  len <> 0 ->
  Tree_hard_scan zone false g1 = Returns node g2 ->
  SKIPSPACE (counted node g2) = Returns tt g3 ->
  let defined := if inv then negb (is_defined node g2) else is_defined node g2 in
  ifdef_ifndef inv g
  = (if decide (GotByte g3 <> CHAR_SOB) then
       mret (if defined then PARSE_REMAINDER else SKIP_REMAINDER)
     else
       parse_block_else_block defined;;
       mret ENSURE_EOS) g3.
Proof.
  intros Hname Hlen Hscan Hskip defined. unfold ifdef_ifndef.
  rewrite (bind_call _ _ _ _ _ Hname). cbv beta iota.
  destruct (decide (len = 0)); [contradiction|].
  rewrite (bind_call _ _ _ _ _ Hscan).
  destruct node as [p|]; simpl counted in Hskip; unfold defined; simpl is_defined.
  - steps. destruct (decide (pass_count g2 = 0)); steps.
    + rewrite count_usage_flags. rewrite (bind_call _ _ _ _ _ Hskip). steps.
      reflexivity.
    + rewrite (bind_call _ _ _ _ _ Hskip). steps. reflexivity.
  - steps. rewrite (bind_call _ _ _ _ _ Hskip). steps. reflexivity.
Qed.

(** X9.  "!ifdef" ([inv] false) and "!ifndef" ([inv] true) with a left
    brace after the symbol name.  The first block is parsed by
    Parse_until_eob_or_eof if the symbol is defined (for "!ifndef": if it
    is not) and skipped by Input_skip_or_store_block otherwise; when "else"
    and a second block follow, that block is treated the other way round.
    The handler returns ENSURE_EOS, with the globals these calls have led
    to. *)
Theorem ifdef_ifndef_blocks (inv : bool) g len zone g1 node g2 g3 :
  Input_read_zone_and_keyword g = Returns (len, zone) g1 ->
  len <> 0 ->
  Tree_hard_scan zone false g1 = Returns node g2 ->
  SKIPSPACE (counted node g2) = Returns tt g3 ->
  GotByte g3 = CHAR_SOB ->
  let parse_first := if inv then negb (is_defined node g2) else is_defined node g2 in
  (* no else *)
  (forall g4 g5,
     handled parse_first g3 = Some g4 ->
     NEXTANDSKIPSPACE g4 = Returns tt g5 ->
     GotByte g5 = CHAR_EOS ->
     ifdef_ifndef inv g = ([block_event parse_first g3], Done ENSURE_EOS g5)) /\
  (* else and a second block *)
  (forall g4 g5 len' g6 g7 g8 c g9 g10,
     handled parse_first g3 = Some g4 ->
     NEXTANDSKIPSPACE g4 = Returns tt g5 ->
     GotByte g5 <> CHAR_EOS ->
     Input_read_and_lower_keyword g5 = Returns len' g6 ->
     len' <> 0 ->
     buffer_is "else" g6 = true ->
     SKIPSPACE g6 = Returns tt g7 ->
     GotByte g7 = CHAR_SOB ->
     handled (negb parse_first) g7 = Some g8 ->
     GetByte g8 = Returns c g9 ->
     Input_ensure_EOS g9 = Returns tt g10 ->
     ifdef_ifndef inv g
     = ([block_event parse_first g3; block_event (negb parse_first) g7],
        Done ENSURE_EOS g10)).
Proof.
  intros Hname Hlen Hscan Hskip Hsob parse_first.
  assert (Hrun : ifdef_ifndef inv g
                 = (parse_block_else_block parse_first;; mret ENSURE_EOS) g3).
  { rewrite (ifdef_ifndef_found inv g len zone g1 node g2 g3) by assumption.
    destruct (decide (GotByte g3 <> CHAR_SOB)); [contradiction|reflexivity]. }
  rewrite Hrun. split.
  - intros g4 g5 Hb1 Hnext Heos.
    rewrite (bind_done _ _ _ _ _ _
               (parse_block_else_block_alone _ _ _ _ Hb1 Hnext Heos)).
    rewrite after_ret. reflexivity.
  - intros g4 g5 len' g6 g7 g8 c g9 g10
      Hb1 Hnext Heos Hkey Hlen' Helse Hskip' Hsob' Hb2 Hget Hens.
    rewrite (bind_done _ _ _ _ _ _
               (parse_block_else_block_both _ _ _ _ _ _ _ _ _ _ _
                  Hb1 Hnext Heos Hkey Hlen' Helse Hskip' Hsob' Hb2 Hget Hens)).
    rewrite after_ret. reflexivity.
Qed.

(** X10.  "!ifdef" and "!ifndef" count the use of a symbol they find, in
    the first pass only, whether a block follows the name or not: when the
    handler looks for the left brace, the usage count of the symbol has
    gone up by one, its value and flags are what they were, and no other
    symbol has been touched.  In a later pass the symbols are as they
    were. *)
Theorem ifdef_ifndef_usage (inv : bool) g len zone g1 p g2 g3 :
  Input_read_zone_and_keyword g = Returns (len, zone) g1 ->
  len <> 0 ->
  Tree_hard_scan zone false g1 = Returns (Some p) g2 ->
  SKIPSPACE (counted (Some p) g2) = Returns tt g3 ->
  symbols g3 = symbols (counted (Some p) g2) ->
  let defined :=
    if inv then negb (is_defined (Some p) g2) else is_defined (Some p) g2 in
  ifdef_ifndef inv g
  = (if decide (GotByte g3 <> CHAR_SOB) then
       mret (if defined then PARSE_REMAINDER else SKIP_REMAINDER)
     else
       parse_block_else_block defined;;
       mret ENSURE_EOS) g3 /\
  sym_result (symbol_at p g3) = sym_result (symbol_at p g2) /\
  usage (symbol_at p g3)
  = (if decide (pass_count g2 = 0) then swrap int_bits (usage (symbol_at p g2) + 1)
     else usage (symbol_at p g2)) /\
  (forall q, q <> p -> symbols g3 !! q = symbols g2 !! q) /\
  (pass_count g2 <> 0 -> symbols g3 = symbols g2).
Proof.
  intros Hname Hlen Hscan Hskip Hframe defined. split.
  - apply (ifdef_ifndef_found inv g len zone g1 (Some p) g2 g3); assumption.
  - unfold symbol_at. rewrite Hframe. simpl counted.
    destruct (decide (pass_count g2 = 0)).
    + unfold count_usage, symbol_at. simpl symbols. rewrite lookup_insert_eq. simpl.
      split; [reflexivity|]. split; [reflexivity|]. split; [|contradiction].
      intros q Hq. apply lookup_insert_ne. congruence.
    + split; [reflexivity|]. split; [reflexivity|]. split; reflexivity.
Qed.

(** X11.  A directive that cannot read the name of its symbol returns
    SKIP_REMAINDER at once and raises nothing itself: "!for" before it
    looks the symbol up, "!ifdef" and "!ifndef" before they scan the symbol
    tree.  "!for" with no comma after the name raises a syntax error and
    returns SKIP_REMAINDER; by then symbol_find has been called. *)
Theorem no_symbol_name :
  (forall fuel g zone g1,
     Input_read_zone_and_keyword g = Returns (0, zone) g1 ->
     PO_for fuel g = ([], Done SKIP_REMAINDER g1)) /\
  (forall inv g zone g1,
     Input_read_zone_and_keyword g = Returns (0, zone) g1 ->
     ifdef_ifndef inv g = ([], Done SKIP_REMAINDER g1)) /\
  (forall fuel g len zone g1 force_bit g2 sym g3 g4,
     Input_read_zone_and_keyword g = Returns (len, zone) g1 ->
     len <> 0 ->
     Input_get_force_bit g1 = Returns force_bit g2 ->
     symbol_find zone force_bit g2 = Returns sym g3 ->
     Input_accept_comma g3 = Returns 0 g4 ->
     PO_for fuel g = ([EvError exception_syntax], Done SKIP_REMAINDER g4)).
Proof.
  split; [|split].
  - intros fuel g zone g1 Hname. unfold PO_for, for_read_args.
    rewrite bind_assoc. rewrite (bind_call _ _ _ _ _ Hname). cbv beta iota.
    destruct (decide (0 = 0)); [|contradiction]. steps. reflexivity.
  - intros inv g zone g1 Hname. unfold ifdef_ifndef.
    rewrite (bind_call _ _ _ _ _ Hname). cbv beta iota.
    destruct (decide (0 = 0)); [reflexivity|contradiction].
  - intros fuel g len zone g1 force_bit g2 sym g3 g4 Hname Hlen Hforce Hfind Hcomma.
    unfold PO_for, for_read_args.
    rewrite bind_assoc. rewrite (bind_call _ _ _ _ _ Hname). cbv beta iota.
    destruct (decide (len = 0)); [contradiction|].
    rewrite bind_assoc. rewrite (bind_call _ _ _ _ _ Hforce).
    rewrite bind_assoc. rewrite (bind_call _ _ _ _ _ Hfind).
    rewrite bind_assoc. rewrite (bind_call _ _ _ _ _ Hcomma).
    destruct (decide (0 = 0)); [|contradiction].
    unfold Throw_error. steps. reflexivity.
Qed.

End NameProofs.

(** ** What a run can leave in the trace *)

Section EventProofs.
Context {World : Type} `{E : Externals World}.
Implicit Types g : globals World.
#[local] Abbreviation M := (M (World:=World)).

Lemma bind_events {A B} (P : event -> Prop) (m : M A) (k : A -> M B) g :
  Forall P (m g).1 ->
  (forall a g', (m g).2 = Done a g' -> Forall P (k a g').1) ->
  Forall P ((m ≫= k) g).1.
Proof.
  unfold mbind, M_bind, bind. destruct (m g) as [t [a g'|ft g'|]]; simpl; intros Ht Hk;
    try exact Ht.
  specialize (Hk a g' eq_refl). destruct (k a g') as [t' r]. simpl in *.
  apply Forall_app. split; assumption.
Qed.

Lemma do_while_events {S : Type} (P : event -> Prop) (I : S -> Prop)
    (iteration : S -> M (S * bool)) :
  (forall s g, I s -> Forall P (iteration s g).1) ->
  (forall s g s' b g', I s -> (iteration s g).2 = Done (s', b) g' -> I s') ->
  forall fuel s g, I s -> Forall P (do_while fuel iteration s g).1.
Proof.
  intros Hev Hinv. induction fuel as [|fuel IH]; intros s g Hs.
  - apply Forall_nil. trivial.
  - simpl do_while. apply bind_events; [apply Hev, Hs|].
    intros [s' b] g' Hit. destruct b.
    + apply IH. eapply Hinv; eassumption.
    + apply Forall_nil. trivial.
Qed.

Lemma check_condition_events (c1 c2 : loop_condition) (ls : Z) (lb : char_ptr)
    (c : loop_condition) g :
  c = c1 \/ c = c2 -> Forall (do_event c1 c2 ls lb) (check_condition c g).1.
Proof.
  intros Hc. pose proof (check_condition_trace c g) as Ht.
  destruct (check_condition c g) as [t [r g'|ft g'|]]; simpl; [| |contradiction].
  - subst t. apply Forall_singleton. exact Hc.
  - destruct Ht as [-> | ->]; [apply Forall_nil; trivial|].
    apply Forall_singleton. reflexivity.
Qed.

Lemma parse_ram_block_events (P : event -> Prop) (ls : Z) (lb : char_ptr) g :
  P (EvParse ls (src_ram lb)) -> Forall P (parse_ram_block ls lb g).1.
Proof.
  intros HP. pose proof (parse_ram_block_trace ls lb g) as Ht.
  destruct (parse_ram_block ls lb g) as [t [r g'|ft g'|]]; simpl; [| |contradiction];
    subst t; apply Forall_singleton; exact HP.
Qed.

Lemma do_loop_events (c1 c2 : loop_condition) (ls : Z) (lb : char_ptr) fuel g :
  Forall (do_event c1 c2 ls lb) (do_loop fuel c1 c2 ls lb g).1.
Proof.
  unfold do_loop.
  apply (do_while_events (do_event c1 c2 ls lb) (fun _ : unit => True)); [| |exact I].
  - intros [] g0 _. apply bind_events; [apply check_condition_events; auto|].
    intros go_on g1 _. apply bind_events.
    + destruct go_on; [|apply Forall_nil; trivial].
      apply bind_events; [apply parse_ram_block_events; split; reflexivity|].
      intros _ g2 _. apply check_condition_events. auto.
    + intros. apply Forall_nil. trivial.
  - trivial.
Qed.

Lemma store_condition_inv (c : loop_condition) (terminator : Z) g t c' g' :
  store_condition c terminator g = (t, Done c' g') ->
  t = [] \/ t = [EvError exception_syntax].
Proof.
  unfold store_condition. steps.
  destruct (decide (GotByte g = terminator)).
  - intros [= <- <- <-]. left. reflexivity.
  - rewrite bind_call_any.
    destruct (Input_read_and_lower_keyword g) as [len g1|ft g1]; [|discriminate].
    destruct (decide (len <> 0)).
    + steps. destruct (Tree_easy_scan condkeys (GlobalDynaBuf g1)) as [inv|].
      * rewrite bind_call_any. destruct (SKIPSPACE g1) as [[] g2|ft g2]; [|discriminate].
        unfold DYNABUF_CLEAR, DynaBuf_append, DynaBuf_get_copy. steps.
        rewrite bind_call_any.
        destruct (Input_until_terminator terminator (set_GlobalDynaBuf [] g2))
          as [[] g3|ft g3]; [|discriminate].
        steps. intros [= <- <- <-]. left. reflexivity.
      * unfold Throw_error. steps. intros [= <- <- <-]. right. reflexivity.
    + intros [= <- <- <-]. left. reflexivity.
Qed.

Lemma captures_app (t t' : list event) : captures (t ++ t') = captures t ++ captures t'.
Proof. apply flat_map_app. Qed.

Lemma captures_none (P : event -> Prop) (t : list event) :
  (forall store, ~ P (EvBlock store)) -> Forall P t -> captures t = [].
Proof.
  intros HP. induction 1 as [|e t He _ IH]; [reflexivity|].
  simpl. rewrite IH. destruct e; try reflexivity. exfalso. eapply HP, He.
Qed.

(** X12.  "!do" that has read its head condition and has had its body
    stored.  Whenever it returns, it returns AT_EOS_ANYWAY with CHAR_EOS in
    GotByte; it has read one block from the input, storing it, however
    many times the body was parsed; and every parse was a parse of the
    block Input_skip_or_store_block returned, at the line number the input
    had when the block was read. *)
Theorem PO_do_returns (fuel : nat) g g1 t1 c1 g2 lb g3 t r g' :
  SKIPSPACE g = Returns tt g1 ->
  store_condition (mk_condition 0 false None) CHAR_SOB g1 = (t1, Done c1 g2) ->
  Input_skip_or_store_block true g2 = Returns lb g3 ->
  PO_do fuel g = (t, Done r g') ->
  r = AT_EOS_ANYWAY /\
  GotByte g' = CHAR_EOS /\
  captures t = [true] /\
  Forall (fun e => match e with
                   | EvParse l s => l = line_number (active g2) /\ s = src_ram lb
                   | _ => True
                   end) t.
Proof.
  unfold PO_do. cbv zeta. intros Hskip Hhead Hblock Hrun.
  rewrite (bind_call _ _ _ _ _ Hskip) in Hrun.
  rewrite (bind_done _ _ _ _ _ _ Hhead) in Hrun.
  apply after_done_inv in Hrun as (t3 & Hrun & ->).
  apply store_condition_inv in Hhead as Hc1.
  steps_in Hrun.
  destruct (decide (GotByte g2 <> CHAR_SOB)).
  { unfold Throw_serious_error in Hrun. steps_in Hrun. discriminate. }
  steps_in Hrun. rewrite (bind_traced _ _ _ _ _ _ Hblock) in Hrun.
  apply after_done_inv in Hrun as (t4 & Hrun & ->).
  rewrite bind_call_any in Hrun.
  destruct (NEXTANDSKIPSPACE g3) as [[] g4|ft g4]; [|discriminate].
  apply bind_done_inv in Hrun as (t5 & c2 & g5 & t6 & Hc2 & Hrun & ->).
  apply store_condition_inv in Hc2.
  unfold do_run in Hrun. steps_in Hrun.
  apply bind_done_inv in Hrun as (t7 & [] & g6 & t8 & Hloop & Hrest & ->).
  unfold leave in Hrest. steps_in Hrest. injection Hrest as <- <- <-.
  pose proof (do_loop_events c1 c2 (line_number (active g2)) lb fuel (switched g5)) as Hev.
  unfold switched in Hev. rewrite Hloop in Hev. simpl in Hev.
  split; [reflexivity|]. split; [reflexivity|]. split.
  - rewrite !captures_app.
    rewrite (captures_none _ _ (fun store (H : do_event _ _ _ _ _) => H) Hev).
    destruct Hc1 as [-> | ->], Hc2 as [-> | ->]; reflexivity.
  - apply Forall_app. split.
    + destruct Hc1 as [-> | ->]; repeat constructor.
    + constructor; [exact I|]. apply Forall_app. split.
      * destruct Hc2 as [-> | ->]; repeat constructor.
      * rewrite app_nil_r. eapply Forall_impl; [exact Hev|].
        intros [] He; simpl in *; try exact I. exact He.
Qed.

End EventProofs.

Section ForEventProofs.
Context {World : Type} `{E : Externals World}.
Implicit Types g : globals World.

Lemma traced_events {A} (P : event -> Prop) (e : globals World -> event) (f : ext A) g :
  P (e g) -> Forall P (traced e f g).1.
Proof. intros HP. apply Forall_singleton. exact HP. Qed.

(** The events of a counting loop that are not the capture of the body. *)
Lemma for_loops_events (fuel : nat) (a : for_args) (ls : Z) (lb : char_ptr)
    (loop_counter : result) g :
  flags loop_counter = counter_flags ->
  Forall (fun e => for_event a ls e /\ captures [e] = [])
    (for_loops fuel a ls lb loop_counter g).1.
Proof.
  intros Hfl. unfold for_loops.
  assert (Hparse : forall g0,
            Forall (fun e => for_event a ls e /\ captures [e] = [])
              (parse_ram_block ls lb g0).1).
  { intros g0. apply parse_ram_block_events. split; reflexivity. }
  assert (Hset : forall (lc : result) g0,
            flags lc = counter_flags ->
            Forall (fun e => for_event a ls e /\ captures [e] = [])
              (traced (fun _ => EvSetValue (for_symbol a) lc true)
                 (symbol_set_value (for_symbol a) lc true) g0).1).
  { intros lc g0 Hlc. apply traced_events. split; [|reflexivity].
    simpl. auto. }
  destruct (old_algo a).
  - destruct (decide (counter_last a <> 0)); [|apply Forall_nil; trivial].
    apply bind_events; [|intros; apply Forall_nil; trivial].
    apply (do_while_events _ (fun lc => flags lc = counter_flags)); [| |exact Hfl].
    + intros lc g0 Hlc. apply bind_events; [apply Hset; exact Hlc|].
      intros _ g1 _. apply bind_events; [apply Hparse|].
      intros. apply Forall_nil. trivial.
    + intros lc g0 lc' b g' Hlc Hit. revert Hit.
      unfold mbind, M_bind, bind, traced.
      destruct (outcome_of (symbol_set_value _ _ _ g0)) as [[] g1|ft g1|];
        simpl; try discriminate.
      destruct (parse_ram_block ls lb g1) as [t1 [[] g2|ft g2|]]; simpl; try discriminate.
      intros [= <- _ _]. exact Hlc.
  - apply bind_events; [|intros; apply Forall_nil; trivial].
    apply (do_while_events _ (fun lc => flags lc = counter_flags)); [| |exact Hfl].
    + intros lc g0 Hlc. apply bind_events; [apply Hparse|].
      intros _ g1 _. apply bind_events; [apply Hset; exact Hlc|].
      intros. apply Forall_nil. trivial.
    + intros lc g0 lc' b g' Hlc Hit. revert Hit.
      unfold mbind, M_bind, bind, traced.
      destruct (parse_ram_block ls lb g0) as [t1 [[] g1|ft g1|]]; simpl; try discriminate.
      destruct (outcome_of (symbol_set_value _ _ _ g1)) as [[] g2|ft g2|];
        simpl; try discriminate.
      intros [= <- _ _]. exact Hlc.
Qed.

(** X13.  Once "!for" has read its arguments, whatever the rest of the
    assembler answers and however the run ends, all it does that shows is:
    raise the serious error for a missing left brace, store the body, write
    to the symbol of the loop (always with MVALUE_DEFINED | MVALUE_EXISTS
    and with overwriting allowed), and parse the stored body at the line
    number of the loop.  It never skips a block and raises no other
    diagnostic, and when it returns it has read the body from the input
    exactly once. *)
Theorem for_run_events (fuel : nat) (a : for_args) g :
  Forall (for_event a (line_number (active g))) (for_run fuel a g).1 /\
  forall t r g', for_run fuel a g = (t, Done r g') -> captures t = [true].
Proof.
  assert (Hrest : forall lb g2,
            Forall (fun e => for_event a (line_number (active g)) e /\ captures [e] = [])
              ((cur ← gets active;
                loop_input ← alloca (with_source_is_ram true cur);
                outer_input ← gets Input_now;
                modify (set_Input_now loop_input);;
                traced (fun _ => EvSetValue (for_symbol a)
                                   (mk_result (Z.lor MVALUE_DEFINED MVALUE_EXISTS)
                                      (counter_first a)) true)
                  (symbol_set_value (for_symbol a)
                     (mk_result (Z.lor MVALUE_DEFINED MVALUE_EXISTS) (counter_first a))
                     true);;
                for_loops fuel a (line_number (active g)) lb
                  (mk_result (Z.lor MVALUE_DEFINED MVALUE_EXISTS) (counter_first a));;
                modify (set_Input_now outer_input);;
                call GetByte;;
                leave loop_input;;
                mret ENSURE_EOS) g2).1).
  { intros lb g2. steps.
    apply bind_events; [apply traced_events; split; [simpl; auto|reflexivity]|].
    intros _ g3 _. apply bind_events; [apply for_loops_events; reflexivity|].
    intros _ g4 _. steps. rewrite bind_call_any.
    destruct (GetByte _) as [c g5|ft g5]; [|apply Forall_nil; trivial].
    unfold leave. steps. apply Forall_nil. trivial. }
  assert (Hweak : forall t : list event,
            Forall (fun e => for_event a (line_number (active g)) e /\ captures [e] = []) t ->
            Forall (for_event a (line_number (active g))) t /\ captures t = []).
  { induction 1 as [|e t [He Hc] _ [IH1 IH2]]; [split; [constructor|reflexivity]|].
    split; [constructor; assumption|].
    change (e :: t) with ([e] ++ t). rewrite captures_app, Hc, IH2.
    reflexivity. }
  unfold for_run. steps.
  destruct (decide (GotByte g <> CHAR_SOB)).
  - unfold Throw_serious_error. steps. split; [|discriminate].
    apply Forall_singleton. reflexivity.
  - steps. rewrite bind_traced_any.
    destruct (Input_skip_or_store_block true g) as [lb g2|ft g2].
    + specialize (Hrest lb g2). apply Hweak in Hrest as [Hev Hcap].
      match goal with |- context [after _ ?p] => destruct p as [t r] end.
      simpl in *. split; [constructor; [reflexivity|exact Hev]|].
      intros t' r' g' [= <- ->]. simpl. rewrite Hcap. reflexivity.
    + split; [|discriminate]. apply Forall_singleton. reflexivity.
Qed.

End ForEventProofs.

Section LoopProofs.
Context {World : Type} `{E : Externals World}.
Implicit Types g : globals World.

(** X14.  A "!do" loop with neither a head nor a tail condition does not
    end as long as its body parses up to its right brace: whatever the
    number of turns allowed, the loop has made that many turns, each with
    both checks true and the body parsed, and has not returned. *)
Theorem do_loop_without_conditions (ln1 ln2 : Z) (inv1 inv2 : bool) (ls : Z)
    (lb : char_ptr) :
  (forall g,
     line_number (active g) = ls -> src (active g) = src_ram lb ->
     exists g', Parse_until_eob_or_eof g = Returns tt g' /\ GotByte g' = CHAR_EOB) ->
  forall fuel g,
    do_loop fuel (mk_condition ln1 inv1 None) (mk_condition ln2 inv2 None) ls lb g
    = (rounds (mk_condition ln1 inv1 None) (mk_condition ln2 inv2 None)
         (EvParse ls (src_ram lb)) fuel,
       Fuel).
Proof.
  intros Hparse. induction fuel as [|fuel IH]; intros g; [reflexivity|].
  rewrite do_loop_turn.
  rewrite (bind_done _ _ _ _ _ _ (check_condition_null ln1 inv1 g)).
  destruct (Hparse (set_up ls lb g)) as (g1 & Hp & Heob).
  { unfold set_up. rewrite !active_set_active. reflexivity. }
  { unfold set_up. rewrite !active_set_active. reflexivity. }
  assert (Hbody : parse_ram_block ls lb g = ([EvParse ls (src_ram lb)], Done tt g1)).
  { rewrite parse_ram_block_run, Hp.
    destruct (decide (GotByte g1 = CHAR_EOB)); [reflexivity|contradiction]. }
  rewrite (bind_done _ _ _ _ _ _ Hbody).
  rewrite (bind_done _ _ _ _ _ _ (check_condition_null ln2 inv2 g1)).
  rewrite IH. reflexivity.
Qed.

Lemma parse_ram_block_fault (ls : Z) (lb : char_ptr) g ft g1 :
  body_fault ls lb g = Some (ft, g1) ->
  parse_ram_block ls lb g = ([EvParse ls (src_ram lb)], Stop ft g1).
Proof.
  unfold body_fault. rewrite parse_ram_block_run.
  destruct (Parse_until_eob_or_eof (set_up ls lb g)) as [[] g2|ft2 g2].
  - destruct (decide (GotByte g2 = CHAR_EOB)); [discriminate|].
    intros [= <- <-]. reflexivity.
  - intros [= <- <-]. reflexivity.
Qed.

(** X15.  The body of a loop is parsed on a new input object.  When the
    active input is a live object, "!do" (here with no head condition) and
    "!for" (here in the new syntax) call the parser for the first time
    with an input active that has another address, one that was not in
    use: a copy that reads the stored body from memory at the line number
    of the loop, while every other input object, the one that was active
    too, is as it was.  That this is the state of the call shows in what
    the call can do: if the parser stops the assembler there, or ends at
    something that is not a right brace, the run of the handler ends
    there, with that fault and those globals. *)
Theorem loop_input_is_new g (ls : Z) (lb : char_ptr) :
  is_Some (inputs g !! Input_now g) ->
  let g' := set_up ls lb (switched g) in
  (Input_now g' <> Input_now g /\
   inputs g !! Input_now g' = None /\
   active g' = mk_input ls true (src_ram lb) /\
   (forall a, a <> Input_now g' -> inputs g' !! a = inputs g !! a)) /\
  (forall fuel ln inv c2 ft g1,
     body_fault ls lb (switched g) = Some (ft, g1) ->
     do_run (S fuel) (mk_condition ln inv None) c2 ls lb g
     = ([EvCheck (mk_condition ln inv None) true; EvParse ls (src_ram lb)],
        Stop ft g1)) /\
  (forall fuel a g0 g3 ft g1,
     GotByte g0 = CHAR_SOB ->
     Input_skip_or_store_block true g0 = Returns lb g ->
     line_number (active g0) = ls ->
     old_algo a = false ->
     symbol_set_value (for_symbol a) (mk_result counter_flags (counter_first a)) true
       (switched g) = Returns tt g3 ->
     Input_now g3 = Input_now (switched g) ->
     inputs g3 = inputs (switched g) ->
     body_fault ls lb g3 = Some (ft, g1) ->
     Input_now (set_up ls lb g3) = Input_now g' /\
     inputs (set_up ls lb g3) = inputs g' /\
     for_run (S fuel) a g0
     = ([EvBlock true;
         EvSetValue (for_symbol a) (mk_result counter_flags (counter_first a)) true;
         EvParse ls (src_ram lb)],
        Stop ft g1)).
Proof.
  intros Hlive g'.
  assert (Hfresh : inputs g !! top g = None).
  { apply not_elem_of_dom. unfold top. apply is_fresh. }
  assert (Hne : top g <> Input_now g).
  { intros Heq. rewrite Heq in Hfresh. rewrite Hfresh in Hlive.
    destruct Hlive as [x Hx]. discriminate. }
  split; [|split].
  - split; [exact Hne|]. split; [exact Hfresh|]. split.
    + unfold g', set_up. rewrite !active_set_active.
      unfold switched, active, push. simpl. rewrite lookup_insert_eq. reflexivity.
    + intros a Ha. change (Input_now g') with (top g) in Ha.
      unfold g', set_up, set_active, switched, push. simpl.
      rewrite !lookup_insert_ne by congruence. reflexivity.
  - intros fuel ln inv c2 ft g1 Hfault.
    apply parse_ram_block_fault in Hfault.
    assert (Hloop : do_loop (S fuel) (mk_condition ln inv None) c2 ls lb (switched g)
                    = ([EvCheck (mk_condition ln inv None) true; EvParse ls (src_ram lb)],
                       Stop ft g1)).
    { rewrite do_loop_turn.
      rewrite (bind_done _ _ _ _ _ _ (check_condition_null ln inv (switched g))).
      rewrite (bind_stop _ _ _ _ _ _ Hfault). reflexivity. }
    unfold do_run. steps. fold (switched g).
    rewrite (bind_stop _ _ _ _ _ _ Hloop). reflexivity.
  - intros fuel a g0 g3 ft g1 Hsob Hblock Hline Hnew Hset Hnow Hinputs Hfault.
    apply parse_ram_block_fault in Hfault.
    split; [|split].
    + unfold g', set_up, set_active. simpl. exact Hnow.
    + unfold g', set_up, set_active, active. simpl. rewrite Hnow, Hinputs. reflexivity.
    + unfold for_run. steps.
      destruct (decide (GotByte g0 <> CHAR_SOB)); [contradiction|]. steps.
      rewrite (bind_traced _ _ _ _ _ _ Hblock). steps.
      fold (switched g). fold counter_flags.
      rewrite (bind_traced _ _ _ _ _ _ Hset).
      assert (Hloop : for_loops (S fuel) a ls lb
                        (mk_result counter_flags (counter_first a)) g3
                      = ([EvParse ls (src_ram lb)], Stop ft g1)).
      { unfold for_loops. rewrite Hnew. simpl do_while. rewrite ?bind_assoc.
        rewrite (bind_stop _ _ _ _ _ _ Hfault). reflexivity. }
      rewrite Hline. rewrite (bind_stop _ _ _ _ _ _ Hloop). reflexivity.
Qed.

End LoopProofs.

Section MacroProofs.
Context {World : Type} `{E : Externals World}.
Implicit Types g : globals World.

Lemma skip_to_sob (n : nat) :
  forall (fuel : nat) g g1,
    advance n g = Some g1 ->
    (n < fuel)%nat ->
    while_do fuel (gb ← gets GotByte; mret (bool_decide (gb <> CHAR_SOB)))
      (call GetByte;; mret tt) g
    = ([], Done tt g1).
Proof.
  induction n as [|n IH]; intros fuel g g1 Hadv Hfuel;
    (destruct fuel as [|fuel]; [lia|]); simpl in Hadv; simpl while_do; steps.
  - destruct (decide (GotByte g = CHAR_SOB)); [|discriminate].
    injection Hadv as <-. rewrite bool_decide_eq_false_2 by tauto. reflexivity.
  - destruct (decide (GotByte g = CHAR_SOB)); [discriminate|].
    rewrite bool_decide_eq_true_2 by assumption.
    destruct (GetByte g) as [c g2|ft g2] eqn:Hget; [|discriminate].
    cbv iota. steps.
    rewrite (bind_call _ _ _ _ _ Hget). steps. apply IH; [exact Hadv|lia].
Qed.

(** X16.  "!macro".  In the first pass the definition is handed to
    Macro_parse_definition and flow.c skips nothing itself.  In every other
    pass Macro_parse_definition plays no part, whatever it would do: the
    handler calls GetByte until GotByte is the left brace and has the block
    skipped, not stored.  In both cases it then fetches one more byte and
    returns ENSURE_EOS. *)
Theorem PO_macro_passes g :
  (forall macro_parse_definition fuel g1 c g2,
     pass_count g = 0 ->
     macro_parse_definition g = Returns tt g1 ->
     GetByte g1 = Returns c g2 ->
     PO_macro macro_parse_definition fuel g = ([], Done ENSURE_EOS g2)) /\
  (forall n g1 p g2 c g3 fuel,
     pass_count g <> 0 ->
     advance n g = Some g1 ->
     Input_skip_or_store_block false g1 = Returns p g2 ->
     GetByte g2 = Returns c g3 ->
     (n < fuel)%nat ->
     forall macro_parse_definition,
       PO_macro macro_parse_definition fuel g = ([EvBlock false], Done ENSURE_EOS g3)).
Proof.
  split.
  - intros mp fuel g1 c g2 Hpass Hmp Hget. unfold PO_macro. steps.
    destruct (decide (pass_count g = 0)); [|contradiction].
    rewrite (bind_call _ _ _ _ _ Hmp). rewrite (bind_call _ _ _ _ _ Hget).
    reflexivity.
  - intros n g1 p g2 c g3 fuel Hpass Hadv Hskip Hget Hfuel mp. unfold PO_macro. steps.
    destruct (decide (pass_count g = 0)); [contradiction|]. steps.
    rewrite (bind_done _ _ _ _ _ _ (skip_to_sob n fuel g g1 Hadv Hfuel)). steps.
    rewrite (bind_traced _ _ _ _ _ _ Hskip). steps.
    rewrite (bind_call _ _ _ _ _ Hget). rewrite !after_after, after_ret. reflexivity.
Qed.

End MacroProofs.

Section MoreProofs.
Context {World : Type} `{E : Externals World}.
Implicit Types g : globals World.

(** X17.  A "!do" loop with a tail condition only is a post-test loop:
    the body is parsed before the condition is looked at for the first
    time, so it is parsed once even when the first evaluation of the tail
    condition ends the loop ("until" with a value that is not zero, "while"
    with the value zero). *)
Theorem do_loop_tail_only (ln : Z) (inv : bool) (c2 : loop_condition) (b : list Z)
    (ls : Z) (lb : char_ptr) g g1 c0 g2 v g3 (fuel : nat) :
  body c2 = Some b ->
  Parse_until_eob_or_eof (set_up ls lb g) = Returns tt g1 ->
  GotByte g1 = CHAR_EOB ->
  GetByte (set_up (line c2) (Some b) g1) = Returns c0 g2 ->
  ALU_defined_int g2 = Returns v g3 ->
  GotByte g3 = 0 ->
  (if invert c2 then v <> 0 else v = 0) ->
  do_loop (S fuel) (mk_condition ln inv None) c2 ls lb g
  = ([EvCheck (mk_condition ln inv None) true; EvParse ls (src_ram lb); EvCheck c2 false],
     Done tt g3).
Proof.
  intros Hb Hparse Heob Hget Halu Hgot Hstop.
  rewrite do_loop_turn.
  rewrite (bind_done _ _ _ _ _ _ (check_condition_null ln inv g)).
  assert (Hbody : parse_ram_block ls lb g = ([EvParse ls (src_ram lb)], Done tt g1)).
  { rewrite parse_ram_block_run, Hparse.
    destruct (decide (GotByte g1 = CHAR_EOB)); [reflexivity|contradiction]. }
  rewrite (bind_done _ _ _ _ _ _ Hbody).
  pose proof (check_condition_stored c2 b g1 c0 g2 v g3 Hb Hget Halu Hgot) as Hc.
  cbv zeta in Hc.
  assert (Hfalse : (if invert c2 then bool_decide (v = 0) else bool_decide (v <> 0)) = false).
  { destruct (invert c2).
    - apply bool_decide_eq_false_2. exact Hstop.
    - apply bool_decide_eq_false_2. intros Hv. apply Hv. exact Hstop. }
  rewrite Hfalse in Hc. rewrite (bind_done _ _ _ _ _ _ Hc).
  rewrite !after_after, after_ret. reflexivity.
Qed.

(** X18.  "!source" of a file that can be opened, call by call.  The new
    input object is made active, the file is parsed and closed, then the
    input that was active and the byte that was in GotByte are put back,
    the new object is given up and the inclusion level is given back.  A
    parse that ended at a right brace raises an error and changes nothing
    of this. *)
Theorem PO_source_includes g g2 fd g3 g4 g5 g6 :
  1 <= source_recursions_left g ->
  in_range int_bits (source_recursions_left g) ->
  Input_read_filename true (entered g) = Returns 0 g2 ->
  fopen (c_str (GlobalDynaBuf g2)) g2 = Returns (Some fd) g3 ->
  Input_new_file (c_str (GlobalDynaBuf g2)) fd
    (set_Input_now (top g3) (push dead_input g3)) = Returns tt g4 ->
  Parse_until_eob_or_eof g4 = Returns tt g5 ->
  fclose (active_fd g5) g5 = Returns tt g6 ->
  exists g',
    PO_source g
    = ((if decide (2 < Process_verbosity g3) then [EvPrintf (c_str (GlobalDynaBuf g2))]
        else [])
         ++ ev_parse g4
         :: (if decide (GotByte g5 = CHAR_EOF) then []
             else [EvError found_eob_instead_of_eof]),
       Done ENSURE_EOS g') /\
    Input_now g' = Input_now g3 /\
    GotByte g' = GotByte g3 /\
    inputs g' = delete (top g3) (inputs g6) /\
    source_recursions_left g' = swrap int_bits (source_recursions_left g6 + 1).
Proof.
  intros Hpos Hrange Hread Hopen Hnew Hparse Hclose.
  assert (Hdec : source_recursions_left (entered g) = source_recursions_left g - 1).
  { unfold entered. simpl. apply swrap_in_range.
    unfold in_range in *. pose proof (half_pos int_bits). lia. }
  assert (Hfile : Parse_and_close_file fd (c_str (GlobalDynaBuf g2))
                    (set_Input_now (top g3) (push dead_input g3))
                  = ((if decide (2 < Process_verbosity g3)
                      then [EvPrintf (c_str (GlobalDynaBuf g2))] else [])
                       ++ ev_parse g4
                       :: (if decide (GotByte g5 = CHAR_EOF) then []
                           else [EvError found_eob_instead_of_eof]),
                     Done tt g6)).
  { unfold Parse_and_close_file. steps.
    change (Process_verbosity (set_Input_now (top g3) (push dead_input g3)))
      with (Process_verbosity g3).
    assert (Hrest : forall t,
              after t
                ((call (Input_new_file (c_str (GlobalDynaBuf g2)) fd);;
                  traced ev_parse Parse_until_eob_or_eof;;
                  gb ← gets GotByte;
                  (if decide (gb <> CHAR_EOF)
                   then Throw_error found_eob_instead_of_eof
                   else mret tt);;
                  fd' ← gets active_fd;
                  call (fclose fd'))
                   (set_Input_now (top g3) (push dead_input g3)))
              = (t ++ ev_parse g4
                   :: (if decide (GotByte g5 = CHAR_EOF) then []
                       else [EvError found_eob_instead_of_eof]),
                 Done tt g6)).
    { intros t. rewrite (bind_call _ _ _ _ _ Hnew).
      rewrite (bind_traced _ _ _ _ _ _ Hparse). steps.
      destruct (decide (GotByte g5 <> CHAR_EOF)), (decide (GotByte g5 = CHAR_EOF));
        try contradiction.
      - unfold Throw_error. steps. unfold call. rewrite Hclose. reflexivity.
      - steps. unfold call. rewrite Hclose. reflexivity. }
    destruct (decide (2 < Process_verbosity g3)).
    - steps. apply Hrest.
    - steps. rewrite <- (Hrest []). rewrite after_nil. reflexivity. }
  eexists. split.
  { unfold PO_source. steps. fold (entered g). rewrite Hdec.
    destruct (decide (source_recursions_left g - 1 < 0)); [lia|]. steps.
    rewrite (bind_call _ _ _ _ _ Hread).
    destruct (decide (0 <> 0)); [contradiction|]. steps.
    rewrite (bind_call _ _ _ _ _ Hopen). cbv beta zeta. steps.
    rewrite (bind_done _ _ _ _ _ _ Hfile). unfold leave. steps.
    rewrite after_ret. reflexivity. }
  repeat split.
Qed.

Lemma throw_serious_events (P : event -> Prop) (m : message) g :
  P (EvSerious m) -> Forall P (Throw_serious_error m g).1.
Proof. intros HP. apply Forall_singleton. exact HP. Qed.

Lemma skip_or_parse_block_events (parse : bool) g :
  Forall if_event (skip_or_parse_block parse g).1.
Proof.
  unfold skip_or_parse_block. destruct parse; cbn [negb]; cbv iota.
  - apply bind_events; [apply traced_events; exact I|].
    intros _ g1 _. steps. destruct (decide (GotByte g1 <> CHAR_EOB)).
    + apply bind_events; [apply throw_serious_events; right; reflexivity|].
      intros. apply Forall_nil. trivial.
    + steps. apply Forall_nil. trivial.
  - apply bind_events; [apply traced_events; reflexivity|].
    intros. apply Forall_nil. trivial.
Qed.

Lemma parse_block_else_block_events (parse_first : bool) g :
  Forall if_event (parse_block_else_block parse_first g).1.
Proof.
  unfold parse_block_else_block.
  apply bind_events; [apply skip_or_parse_block_events|].
  intros missing g2 _. destruct (decide (missing <> 0)); [apply Forall_nil; trivial|].
  apply bind_events; [apply Forall_nil; trivial|].
  intros _ g3 _. steps.
  destruct (decide (GotByte g3 = CHAR_EOS)); [apply Forall_nil; trivial|].
  apply bind_events; [apply Forall_nil; trivial|].
  intros len g4 _. apply bind_events; [|intros; apply Forall_nil; trivial].
  destruct (decide (len <> 0)); [|apply Forall_nil; trivial].
  steps. destruct (buffer_is "else" g4); cbn [negb]; cbv iota.
  - apply bind_events; [apply Forall_nil; trivial|].
    intros _ g5 _. steps. apply bind_events.
    + destruct (decide (GotByte g5 <> CHAR_SOB)); [|apply Forall_nil; trivial].
      apply throw_serious_events. left. reflexivity.
    + intros _ g6 _. apply bind_events; [apply skip_or_parse_block_events|].
      intros _ g7 _. apply bind_events; intros; apply Forall_nil; trivial.
  - apply Forall_singleton. reflexivity.
Qed.

(** X19.  Whatever the rest of the assembler answers and however the run
    ends, a conditional ("!if", "!ifdef", "!ifndef") shows nothing but
    parses of blocks, skips of blocks, the syntax error for a keyword that
    is not "else" and the serious errors for a missing brace: it never
    stores a block, never writes a value to a symbol and raises no warning;
    and when it returns with a block handled, it returns ENSURE_EOS. *)
Theorem conditional_events g :
  Forall if_event (PO_if g).1 /\
  (forall inv, Forall if_event (ifdef_ifndef inv g).1) /\
  (forall t r g', PO_if g = (t, Done r g') -> r = ENSURE_EOS).
Proof.
  split; [|split].
  - unfold PO_if. apply bind_events; [apply Forall_nil; trivial|].
    intros cond g1 _. steps. apply bind_events.
    + destruct (decide (GotByte g1 <> CHAR_SOB)); [|apply Forall_nil; trivial].
      apply throw_serious_events. left. reflexivity.
    + intros _ g2 _. apply bind_events; [apply parse_block_else_block_events|].
      intros. apply Forall_nil. trivial.
  - intros inv. unfold ifdef_ifndef.
    apply bind_events; [apply Forall_nil; trivial|].
    intros [len zone] g1 _. destruct (decide (len = 0)); [apply Forall_nil; trivial|].
    apply bind_events; [apply Forall_nil; trivial|].
    intros node g2 _. apply bind_events.
    + destruct node as [p|]; [|apply Forall_nil; trivial].
      steps. destruct (decide (pass_count g2 = 0)); steps; apply Forall_nil; trivial.
    + intros defined g3 _. apply bind_events; [apply Forall_nil; trivial|].
      intros _ g4 _. steps. destruct (decide (GotByte g4 <> CHAR_SOB)).
      * apply Forall_nil. trivial.
      * apply bind_events; [apply parse_block_else_block_events|].
        intros. apply Forall_nil. trivial.
  - intros t r g' Hrun. unfold PO_if in Hrun.
    apply bind_done_inv in Hrun as (t1 & cond & g1 & t2 & _ & Hrun & _).
    steps_in Hrun.
    apply bind_done_inv in Hrun as (t3 & [] & g2 & t4 & _ & Hrun & _).
    apply bind_done_inv in Hrun as (t5 & [] & g3 & t6 & _ & Hrun & _).
    injection Hrun as _ <- _. reflexivity.
Qed.

End MoreProofs.

(** * More of flow.c on the small assembler *)

(** "!do {i}": the head condition of a loop that has none. *)
Lemma store_condition_empty_witness :
  store_condition (mk_condition 5 true (Some [49; 0])) 123 (Toy.start (bytes "{i}") [])
  = ([], Done (mk_condition 1 false None) (Toy.start (bytes "{i}") [])) /\
  check_condition (mk_condition 1 false None) (Toy.start (bytes "x") [])
  = ([EvCheck (mk_condition 1 false None) true], Done true (Toy.start (bytes "x") [])).
Proof.
  edestruct (store_condition_empty (E:=Toy.toy) (mk_condition 5 true (Some [49; 0])) 123
               (Toy.start (bytes "{i}") [])) as (Hstore & Hcheck).
  - by_computation.
  - split; [rewrite Hstore; by_computation|].
    specialize (Hcheck (Toy.start (bytes "x") [])). exact Hcheck.
Defined.

(** The conditions "foo 1" and "until 1". *)
Lemma store_condition_keyword_witness :
  (exists g1,
     store_condition (mk_condition 5 true None) 0 (Toy.start (bytes "foo 1") [])
     = ([EvError exception_syntax], Done (mk_condition 1 false None) g1)) /\
  (exists g3,
     store_condition (mk_condition 5 false None) 0 (Toy.start (bytes "until 1") [])
     = ([], Done (mk_condition 1 true (Some [49; 0])) g3)).
Proof.
  split.
  - edestruct (store_condition_keyword (E:=Toy.toy) (mk_condition 5 true None) 0
                 (Toy.start (bytes "foo 1") [])) as (Hother & _).
    + by_computation.
    + by_computation.
    + by_computation.
    + eexists. rewrite Hother; by_computation.
  - edestruct (store_condition_keyword (E:=Toy.toy) (mk_condition 5 false None) 0
                 (Toy.start (bytes "until 1") [])) as (_ & Hkey).
    + by_computation.
    + by_computation.
    + by_computation.
    + eexists. etransitivity.
      * eapply Hkey; [left; by_computation|by_computation|by_computation].
      * by_computation.
Defined.

(** The condition "while 1". *)
Lemma store_condition_result_witness :
  exists c' g',
    store_condition (mk_condition 5 true None) 0 (Toy.start (bytes "while 1") [])
    = ([], Done c' g') /\
    line c' = 1 /\ body c' = Some [49; 0] /\ GlobalDynaBuf g' = [49; 0].
Proof.
  do 2 eexists. split; [by_computation|].
  edestruct (store_condition_result (E:=Toy.toy) (mk_condition 5 true None) 0
               (Toy.start (bytes "while 1") [])) as (Hline & _ & _).
  - by_computation.
  - split; [rewrite Hline; by_computation|]. split; by_computation.
Defined.

(** "!if 1 x", "!for" at "x", "!do while 1 x" and "{i} else x". *)
Lemma missing_left_brace_witness :
  (exists g1,
     PO_if (Toy.start (bytes "1 x") [])
     = ([EvSerious exception_no_left_brace], Stop (Serious exception_no_left_brace) g1)) /\
  for_run 3 (mk_for_args 105 false 1 3 1) (Toy.start (bytes "x") [])
  = ([EvSerious exception_no_left_brace],
     Stop (Serious exception_no_left_brace) (Toy.start (bytes "x") [])) /\
  (exists g2,
     PO_do 3 (Toy.start (bytes " while 1 x") [])
     = ([EvSerious exception_no_left_brace], Stop (Serious exception_no_left_brace) g2)) /\
  (exists g5,
     parse_block_else_block true (Toy.start (bytes "{i} else x") [])
     = ([EvParse 1 (src_ram (Some (bytes "i} else x")));
         EvSerious exception_no_left_brace],
        Stop (Serious exception_no_left_brace) g5)).
Proof.
  pose proof (missing_left_brace (E:=Toy.toy)) as (Hif & Hfor & Hdo & Helse).
  split; [|split; [|split]].
  - eexists. eapply (Hif (Toy.start (bytes "1 x") [])).
    + by_computation.
    + by_computation.
  - apply (Hfor 3%nat (mk_for_args 105 false 1 3 1) (Toy.start (bytes "x") [])).
    by_computation.
  - eexists. etransitivity.
    + eapply (Hdo 3%nat (Toy.start (bytes " while 1 x") [])).
      * by_computation.
      * by_computation.
      * by_computation.
    + by_computation.
  - eexists. etransitivity.
    + eapply (Helse true (Toy.start (bytes "{i} else x") [])).
      * by_computation.
      * by_computation.
      * by_computation.
      * by_computation.
      * by_computation.
      * by_computation.
      * by_computation.
      * by_computation.
    + by_computation.
Defined.

(** "!source" when the 64 levels are used up. *)
Lemma PO_source_too_deep_witness :
  exists g',
    PO_source (set_source_recursions_left 0 (Toy.start ([32; 34; 97; 34]) []))
    = ([EvSerious too_deeply_nested], Stop (Serious too_deeply_nested) g') /\
    source_recursions_left g' = -1.
Proof.
  edestruct (PO_source_too_deep (E:=Toy.toy)
               (set_source_recursions_left 0 (Toy.start ([32; 34; 97; 34]) [])))
    as (Hrun & Hleft).
  - by_computation.
  - by_computation.
  - eexists. split; [exact Hrun|]. rewrite Hleft. by_computation.
Defined.

(** The file "a" with the content "xyz", opened. *)
Lemma Parse_and_close_file_runs_witness :
  exists g3,
    Parse_and_close_file 0 [97]
      (Toy.open_file [97] (Toy.start [] [([97], bytes "xyz")])).2
    = ([EvParse 1 (src_fd 0%nat)], Done tt g3).
Proof.
  eexists. etransitivity.
  - eapply (Parse_and_close_file_runs (E:=Toy.toy) 0%nat [97]
              (Toy.open_file [97] (Toy.start [] [([97], bytes "xyz")])).2).
    + by_computation.
    + by_computation.
    + by_computation.
  - by_computation.
Defined.

(** The blocks "{i}" and "{i" with no right brace. *)
Lemma skip_or_parse_block_result_witness :
  (exists t v g',
     skip_or_parse_block true (Toy.start (bytes "{i}") []) = (t, Done v g') /\
     v = 0 /\ GotByte g' = 125) /\
  (exists g',
     skip_or_parse_block true (Toy.start (bytes "{i") [])
     = ([EvParse 1 (src_ram (Some [105])); EvSerious exception_no_right_brace],
        Stop (Serious exception_no_right_brace) g')).
Proof.
  split.
  - destruct (skip_or_parse_block_result (E:=Toy.toy) true (Toy.start (bytes "{i}") []))
      as (Hret & _).
    do 3 eexists. split; [by_computation|].
    edestruct Hret as (Hv & _ & Hgot).
    + by_computation.
    + split; [exact Hv|]. rewrite (Hgot eq_refl). by_computation.
  - destruct (skip_or_parse_block_result (E:=Toy.toy) true (Toy.start (bytes "{i") []))
      as (_ & Hstop).
    eexists. etransitivity.
    + eapply Hstop; [reflexivity|by_computation|by_computation].
    + by_computation.
Defined.

(** "{i} elsa x" and "{i} 1". *)
Lemma else_expected_witness :
  (exists g5,
     parse_block_else_block true (Toy.start (bytes "{i} elsa x") [])
     = ([EvParse 1 (src_ram (Some (bytes "i} elsa x"))); EvError exception_syntax],
        Done tt g5)) /\
  (exists g5,
     parse_block_else_block true (Toy.start (bytes "{i} 1") [])
     = ([EvParse 1 (src_ram (Some (bytes "i} 1")))], Done tt g5)).
Proof.
  split.
  - edestruct (else_expected (E:=Toy.toy) true (Toy.start (bytes "{i} elsa x") []))
      as (Hother & _).
    + by_computation.
    + by_computation.
    + by_computation.
    + by_computation.
    + by_computation.
    + eexists. rewrite Hother; by_computation.
  - edestruct (else_expected (E:=Toy.toy) true (Toy.start (bytes "{i} 1") []))
      as (_ & Hnone).
    + by_computation.
    + by_computation.
    + by_computation.
    + by_computation.
    + by_computation.
    + eexists. rewrite Hnone; by_computation.
Defined.

(** "!ifdef i {i} else {j}" and "!ifndef i {i} else {j}" when i is 7 and
    j is 2: the block that is parsed writes its value. *)
Lemma ifdef_ifndef_blocks_witness :
  (exists g10,
     PO_ifdef (Toy.start_with [(105%nat, 7); (106%nat, 2)] (bytes " i {i} else {j}"))
     = ([EvParse 1 (src_ram (Some (bytes "i} else {j}"))); EvBlock false],
        Done ENSURE_EOS g10) /\
     Toy.output (world g10) = [7]) /\
  (exists g10,
     PO_ifndef (Toy.start_with [(105%nat, 7); (106%nat, 2)] (bytes " i {i} else {j}"))
     = ([EvBlock false; EvParse 1 (src_ram (Some (bytes "j}")))],
        Done ENSURE_EOS g10) /\
     Toy.output (world g10) = [2]).
Proof.
  split.
  - edestruct (ifdef_ifndef_blocks (E:=Toy.toy) false
                 (Toy.start_with [(105%nat, 7); (106%nat, 2)] (bytes " i {i} else {j}")))
      as (_ & Helse).
    + by_computation.
    + by_computation.
    + by_computation.
    + by_computation.
    + by_computation.
    + eexists. split.
      * unfold PO_ifdef. etransitivity.
        -- eapply Helse.
           ++ by_computation.
           ++ by_computation.
           ++ by_computation.
           ++ by_computation.
           ++ by_computation.
           ++ by_computation.
           ++ by_computation.
           ++ by_computation.
           ++ by_computation.
           ++ by_computation.
           ++ by_computation.
        -- by_computation.
      * by_computation.
  - edestruct (ifdef_ifndef_blocks (E:=Toy.toy) true
                 (Toy.start_with [(105%nat, 7); (106%nat, 2)] (bytes " i {i} else {j}")))
      as (_ & Helse).
    + by_computation.
    + by_computation.
    + by_computation.
    + by_computation.
    + by_computation.
    + eexists. split.
      * unfold PO_ifndef. etransitivity.
        -- eapply Helse.
           ++ by_computation.
           ++ by_computation.
           ++ by_computation.
           ++ by_computation.
           ++ by_computation.
           ++ by_computation.
           ++ by_computation.
           ++ by_computation.
           ++ by_computation.
           ++ by_computation.
           ++ by_computation.
        -- by_computation.
      * by_computation.
Defined.

(** "!ifdef i {i}" in the first pass, i defined and not used so far: the
    use has been counted when the block is dealt with. *)
Lemma ifdef_ifndef_usage_witness :
  exists g3,
    ifdef_ifndef false (Toy.start_with [(105%nat, 7)] (bytes " i {i}"))
    = (parse_block_else_block true;; mret ENSURE_EOS) g3 /\
    GotByte g3 = 123 /\
    sym_result (symbol_at 105 g3) = mk_result 16 7 /\
    usage (symbol_at 105 g3) = 1.
Proof.
  edestruct (ifdef_ifndef_usage (E:=Toy.toy) false
               (Toy.start_with [(105%nat, 7)] (bytes " i {i}")))
    as (Hrun & Hres & Huse & _).
  - by_computation.
  - by_computation.
  - by_computation.
  - by_computation.
  - by_computation.
  - match type of Hres with sym_result (symbol_at _ ?g3) = _ => exists g3 end.
    split; [rewrite Hrun; by_computation|].
    split; [by_computation|].
    split; [rewrite Hres|rewrite Huse]; by_computation.
Defined.

(** "!for 1", "!ifdef 1" and "!for i 3". *)
Lemma no_symbol_name_witness :
  (exists g1, PO_for 3 (Toy.start (bytes " 1") []) = ([], Done SKIP_REMAINDER g1)) /\
  (exists g1, PO_ifdef (Toy.start (bytes " 1") []) = ([], Done SKIP_REMAINDER g1)) /\
  (exists g4,
     PO_for 3 (Toy.start (bytes " i 3") [])
     = ([EvError exception_syntax], Done SKIP_REMAINDER g4)).
Proof.
  pose proof (no_symbol_name (E:=Toy.toy)) as (Hfor & Hifdef & Hcomma).
  split; [|split].
  - eexists. eapply (Hfor 3%nat (Toy.start (bytes " 1") [])). by_computation.
  - eexists. eapply (Hifdef false (Toy.start (bytes " 1") [])). by_computation.
  - eexists. eapply (Hcomma 3%nat (Toy.start (bytes " i 3") [])).
    + by_computation.
    + by_computation.
    + by_computation.
    + by_computation.
    + by_computation.
Defined.

(** "!do {i} until 1" *)
Lemma PO_do_returns_witness :
  exists t r g',
    PO_do 2 (Toy.start (bytes " {i} until 1") []) = (t, Done r g') /\
    r = AT_EOS_ANYWAY /\ GotByte g' = 0 /\ captures t = [true] /\
    Forall (fun e => match e with
                     | EvParse l s => l = 1 /\ s = src_ram (Some [105; 125; 0; 13])
                     | _ => True
                     end) t.
Proof.
  do 3 eexists. split; [by_computation|].
  edestruct (PO_do_returns (E:=Toy.toy) 2%nat (Toy.start (bytes " {i} until 1") []))
    as (Hr & Hgot & Hcap & Hparse).
  - by_computation.
  - by_computation.
  - by_computation.
  - by_computation.
  - split; [exact Hr|]. split; [exact Hgot|]. split; [exact Hcap|exact Hparse].
Defined.

(** The loop of "!for i, 2, 3 {i}" from the left brace on. *)
Lemma for_run_events_witness :
  exists t r g',
    for_run 3 (mk_for_args 105 false 2 3 1) (Toy.start (bytes "{i}") []) = (t, Done r g') /\
    captures t = [true].
Proof.
  do 3 eexists. split; [by_computation|].
  destruct (for_run_events (E:=Toy.toy) 3%nat (mk_for_args 105 false 2 3 1)
              (Toy.start (bytes "{i}") [])) as (_ & Hcap).
  eapply Hcap. by_computation.
Defined.

(** "!do {i}" cut off after two turns. *)
Lemma do_loop_without_conditions_witness :
  do_loop 2 (mk_condition 1 false None) (mk_condition 1 false None) 1
    (Some [105; 125; 0; 13]) (Toy.start [] [])
  = ([EvCheck (mk_condition 1 false None) true;
      EvParse 1 (src_ram (Some [105; 125; 0; 13]));
      EvCheck (mk_condition 1 false None) true;
      EvCheck (mk_condition 1 false None) true;
      EvParse 1 (src_ram (Some [105; 125; 0; 13]));
      EvCheck (mk_condition 1 false None) true], Fuel).
Proof.
  rewrite (do_loop_without_conditions (E:=Toy.toy) 1 1 false false 1
             (Some [105; 125; 0; 13]) (toy_body_parses 1) 2%nat (Toy.start [] [])).
  reflexivity.
Defined.

(** The loops of "!do" and of "!for i, 1, 1" with a body that the parser
    leaves at the byte 13, the end of the file, before its right brace. *)
Lemma loop_input_is_new_witness :
  (exists g1,
     do_run 1 (mk_condition 1 false None) (mk_condition 1 true (Some [49; 0]))
       1 (Some [105; 0; 13]) (Toy.start [] [])
     = ([EvCheck (mk_condition 1 false None) true; EvParse 1 (src_ram (Some [105; 0; 13]))],
        Stop (Bug "IllegalBlockTerminator" 13) g1) /\
     Input_now g1 = 1%nat /\
     inputs g1 !! 0%nat = inputs (Toy.start [] []) !! 0%nat) /\
  (exists g1,
     for_run 1 (mk_for_args 105 false 1 1 1) (Toy.start [123; 13; 125] [])
     = ([EvBlock true; EvSetValue 105 (mk_result 80 1) true;
         EvParse 1 (src_ram (Some [13; 125; 0; 13]))],
        Stop (Bug "IllegalBlockTerminator" 13) g1)).
Proof.
  split.
  - edestruct (loop_input_is_new (E:=Toy.toy) (Toy.start [] []) 1 (Some [105; 0; 13]))
      as (_ & Hdo & _).
    + eexists. by_computation.
    + eexists. split; [|split].
      * eapply (Hdo 0%nat 1 false). by_computation.
      * by_computation.
      * by_computation.
  - edestruct (loop_input_is_new (E:=Toy.toy)
                 (match Input_skip_or_store_block true (Toy.start [123; 13; 125] []) with
                  | Returns _ g | Exits _ g => g
                  end) 1 (Some [13; 125; 0; 13]))
      as (_ & _ & Hfor).
    + eexists. by_computation.
    + eexists.
      eapply (Hfor 0%nat (mk_for_args 105 false 1 1 1) (Toy.start [123; 13; 125] [])).
      * by_computation.
      * by_computation.
      * by_computation.
      * by_computation.
      * by_computation.
      * by_computation.
      * by_computation.
      * by_computation.
Defined.

(** "!macro m {i} x" in the first pass and in the second. *)
Lemma PO_macro_passes_witness :
  (exists g2,
     PO_macro Toy.parse_macro_definition 5 (Toy.start (bytes " m {i} x") [])
     = ([], Done ENSURE_EOS g2)) /\
  (exists g3,
     PO_macro Toy.parse_macro_definition 5 (Toy.in_pass 1 (Toy.start (bytes " m {i} x") []))
     = ([EvBlock false], Done ENSURE_EOS g3)).
Proof.
  split.
  - destruct (PO_macro_passes (E:=Toy.toy) (Toy.start (bytes " m {i} x") []))
      as (Hfirst & _).
    eexists. eapply (Hfirst Toy.parse_macro_definition 5%nat).
    + by_computation.
    + by_computation.
    + by_computation.
  - destruct (PO_macro_passes (E:=Toy.toy)
                (Toy.in_pass 1 (Toy.start (bytes " m {i} x") []))) as (_ & Hlater).
    eexists. eapply (Hlater 3%nat _ _ _ _ _ 5%nat).
    + by_computation.
    + by_computation.
    + by_computation.
    + by_computation.
    + lia.
Defined.

(** "!do {i} until 1": one turn. *)
Lemma do_loop_tail_only_witness :
  exists g3,
    do_loop 1 (mk_condition 1 false None) (mk_condition 1 true (Some [49; 0])) 1
      (Some [105; 125; 0; 13]) (Toy.start [] [])
    = ([EvCheck (mk_condition 1 false None) true;
        EvParse 1 (src_ram (Some [105; 125; 0; 13]));
        EvCheck (mk_condition 1 true (Some [49; 0])) false], Done tt g3).
Proof.
  eexists.
  eapply (do_loop_tail_only (E:=Toy.toy) 1 false (mk_condition 1 true (Some [49; 0]))
            [49; 0] 1 (Some [105; 125; 0; 13]) (Toy.start [] [])).
  - reflexivity.
  - by_computation.
  - by_computation.
  - by_computation.
  - by_computation.
  - by_computation.
  - by_computation.
Defined.

(** "!source" of the file "a" with the content "xyz". *)
Lemma PO_source_includes_witness :
  exists t g',
    PO_source (Toy.start ([32; 34; 97; 34]) [([97], bytes "xyz")])
    = (t, Done ENSURE_EOS g') /\
    Input_now g' = 0%nat /\ GotByte g' = 13 /\ source_recursions_left g' = 64.
Proof.
  edestruct (PO_source_includes (E:=Toy.toy)
               (Toy.start ([32; 34; 97; 34]) [([97], bytes "xyz")]))
    as (g' & Hrun & Hin & Hgot & _ & Hleft).
  - by_computation.
  - vm_compute. split; [discriminate|reflexivity].
  - by_computation.
  - by_computation.
  - by_computation.
  - by_computation.
  - by_computation.
  - do 2 eexists. split; [exact Hrun|].
    split; [rewrite Hin; by_computation|].
    split; [rewrite Hgot|rewrite Hleft]; by_computation.
Defined.

(** "!if 1 {i}" *)
Lemma conditional_events_witness :
  exists t r g',
    PO_if (Toy.start (bytes "1 {i}") []) = (t, Done r g') /\ r = ENSURE_EOS.
Proof.
  do 3 eexists. split; [by_computation|].
  destruct (conditional_events (E:=Toy.toy) (Toy.start (bytes "1 {i}") []))
    as (_ & _ & Hret).
  eapply Hret. by_computation.
Defined.
